(** * chemopt: optimisation of a molecule in internal coordinates

    A shallow embedding of [src/chemopt/zmat_optimisation.py].

    Python floats and numpy [float64] entries are IEEE binary64 numbers and
    are modelled by Rocq's primitive floats.  Exceptions are modelled by a
    result type, mutable objects (the [Zmat] instances, the working
    directory) by explicit state passing.  What the module calls and the
    state does not determine enters as a parameter: the electronic
    calculation, the unit conversion, the Jacobian and the indexed
    assignment of the geometry library, the file system outside the working
    directory, and [str.format] on a template with braces. *)

From Stdlib Require Import Floats ZArith Lia Ascii.
From stdpp Require Import base option list strings gmap pretty.

Set Warnings "-register-all,-inexact-float".

(** ** Python outcomes *)

Module Py.

(** The exceptions the modelled functions can raise. *)
Inductive exn : Type :=
| TypeError (msg : string)
| NameError (name : string)
| ValueError (msg : string)
| IndexError (msg : string)
| KeyError (msg : string)
| AttributeError (msg : string)
| FileNotFoundError (path : string)
| IsADirectoryError (path : string)
| NotADirectoryError (path : string)
| OSError (msg : string).

Inductive result (A : Type) : Type :=
| Ok (a : A)
| Raise (e : exn).

Arguments Ok {A} a.
Arguments Raise {A} e.

Definition bind {A B} (r : result A) (k : A -> result B) : result B :=
  match r with
  | Ok a => k a
  | Raise e => Raise e
  end.

(** [l[-k]] for [k >= 1]: the [k]-th element from the end. *)
Definition index_neg {A} (l : list A) (k : nat) : result A :=
  if decide (1 <= k <= length l)
  then match l !! (length l - k) with
       | Some x => Ok x
       | None => Raise (IndexError "list index out of range")
       end
  else Raise (IndexError "list index out of range").

(** [l[0]]. *)
Definition index0 {A} (l : list A) : result A :=
  match l with
  | x :: _ => Ok x
  | [] => Raise (IndexError "list index out of range")
  end.

End Py.

Import Py.

Declare Scope py_scope.
Delimit Scope py_scope with py.
Notation "x <- r ;; k" := (Py.bind r (fun x => k))
  (at level 100, r at next level, right associativity) : py_scope.

(** ** numpy arrays *)

Module Np.

(** A two dimensional [float64] array: its shape and its entries.  Entries
    outside the shape are never read by the operations below. *)
Record ndarray2 : Type := mk2 {
  dim0 : nat;
  dim1 : nat;
  at2 : nat -> nat -> float
}.

(** A four dimensional [float64] array. *)
Record ndarray4 : Type := mk4 {
  d0 : nat; d1 : nat; d2 : nat; d3 : nat;
  at4 : nat -> nat -> nat -> nat -> float
}.

Definition size2 (a : ndarray2) : nat := dim0 a * dim1 a.

(** The entries of an array in C order, as [a.ravel()] lists them. *)
Definition ravel (a : ndarray2) : list float :=
  i ← seq 0 (dim0 a); (fun j => at2 a i j) <$> seq 0 (dim1 a).

Definition of_rows (ncols : nat) (rows : list (list float)) : ndarray2 :=
  {| dim0 := length rows; dim1 := ncols;
     at2 := fun i j => default 0%float (rows !! i ≫= (.!! j)) |}.

(** The binary maximum of numpy's [maximum] reduction: a NaN operand is
    propagated. *)
Definition maximum (a b : float) : float :=
  if PrimFloat.leb b a || PrimFloat.is_nan a then a else b.

(** [a.max()] of the reduction's operands; none is a [ValueError]. *)
Definition max_of (xs : list float) : result float :=
  match xs with
  | [] => Raise (ValueError
      "zero-size array to reduction operation maximum which has no identity")
  | x :: xs' => Ok (foldl maximum x xs')
  end.

(** [a.T] *)
Definition transpose (a : ndarray2) : ndarray2 :=
  {| dim0 := dim1 a; dim1 := dim0 a; at2 := fun i j => at2 a j i |}.

(** [a / c] for a scalar [c]. *)
Definition div_scalar (a : ndarray2) (c : float) : ndarray2 :=
  {| dim0 := dim0 a; dim1 := dim1 a;
     at2 := fun i j => PrimFloat.div (at2 a i j) c |}.

(** Broadcasting of two axis lengths: equal lengths, or one of them is 1. *)
Definition broadcast_dim (x y : nat) : result nat :=
  if decide (x = y) then Ok x
  else if decide (x = 1) then Ok y
  else if decide (y = 1) then Ok x
  else Raise (ValueError "operands could not be broadcast together").

(** The index that reads an axis of length [d] at position [i] of the
    broadcast axis. *)
Definition bidx (d i : nat) : nat := if decide (d = 1) then 0 else i.

(** The sum of a sequence of floats as a reduction computes it: the first
    operand starts the accumulation; an empty reduction is [0.]. *)
Definition sum_of (xs : list float) : float :=
  match xs with
  | [] => 0%float
  | x :: xs' => foldl PrimFloat.add x xs'
  end.

(** [np.rad2deg]: multiplication by the double nearest to 180/pi. *)
Definition rad2deg (x : float) : float :=
  PrimFloat.mul x 0x1.ca5dc1a63c1f8p+5%float.

End Np.

Import Np.

(** ** Values bound to names *)

(** The Python values that occur as arguments and as module-level bindings:
    [None], an imported module or a function (opaque), a flat [float64]
    array, a two dimensional array, a deque of gradients, and a reference to
    a [Zmat] instance in the store. *)
Inductive pyval : Type :=
| PyNone
| PyOpaque (name : string)
| PyFloatArray (a : list float)
| PyMatrix (m : ndarray2)
| PyDeque (d : list ndarray2)
| PyRef (l : nat).

(** The names the module binds at top level: its imports and its functions,
    in the order of the source. *)
Definition module_names : list string :=
  [ "inspect"; "os"; "datetime"; "basename"; "join"; "normpath"; "splitext";
    "deque"; "np"; "scipy"; "convertor"; "to_molden"; "conf_defaults";
    "fixed_defaults"; "calculate"; "tabulate";
    "optimise"; "_get_V_function"; "_get_new_zm_f_generator"; "_get_header";
    "_get_markdown"; "_get_table_row"; "rename_existing"; "_get_footer";
    "_get_isostr"; "_is_converged"; "get_next_step" ].

(** The global namespace of the module after import. *)
Definition module_globals : gmap string pyval :=
  list_to_map ((fun n => (n, PyOpaque n)) <$> module_names).

(** Reading a free name of a function body. *)
Definition load_global (g : gmap string pyval) (name : string) : result pyval :=
  match g !! name with
  | Some v => Ok v
  | None => Raise (NameError name)
  end.

(** ** Convergence checker: [_is_converged] *)

Definition etol_default : float := 0x1.5798ee2308c3ap-27%float. (* 1e-8 *)
Definition gtol_default : float := 0x1.4f8b588e368f1p-17%float. (* 1e-5 *)

(** [abs(grad_energy_X).max()] *)
Definition abs_max (grad_energy_X : pyval) : result float :=
  match grad_energy_X with
  | PyMatrix a => max_of (PrimFloat.abs <$> ravel a)
  | PyFloatArray a => max_of (PrimFloat.abs <$> a)
  | _ => Raise (TypeError "bad operand type for abs()")
  end.

Definition _is_converged (energies : list float) (grad_energy_X : pyval)
    (etol gtol : float) : result bool :=
  match length energies with
  | 0 => Ok false
  | 1 => Ok false
  | _ =>
      (e_last <- index_neg energies 1 ;;
       e_prev <- index_neg energies 2 ;;
       if PrimFloat.ltb (PrimFloat.abs (PrimFloat.sub e_last e_prev)) etol
       then (m <- abs_max grad_energy_X ;; Ok (PrimFloat.ltb m gtol))
       else Ok false)%py
  end.

(** The call [_is_converged(energies, grad_energy_X)] of [optimise], which
    leaves both tolerances at their defaults. *)
Definition _is_converged_defaults (energies : list float)
    (grad_energy_X : pyval) : result bool :=
  _is_converged energies grad_energy_X etol_default gtol_default.

(** ** Step generator: [get_next_step] *)

(** The error of a gradient history whose length is not 2. *)
Definition InvalidHistoryLength : exn :=
  ValueError "Only deques of length 2 allowed".

Definition get_next_step (g : gmap string pyval)
    (grads_energy_C : list ndarray2) : result pyval :=
  if decide (length grads_energy_C ≠ 2)
  then Raise InvalidHistoryLength
  else load_global g "next_step".

(** ** Structures: [chemcoord.Zmat] instances in a store *)

(** One row of the Z-matrix frame, with the columns of the geometry
    library: the element, and for each internal coordinate the reference
    it is measured against (the label of another row, or the name of a
    fixed direction such as [origin] or [e_z]) and its value. *)
Record zrow : Type := mkrow {
  atom : string;
  b : string;
  bond : float;
  a : string;
  angle : float;
  d : string;
  dihedral : float
}.

(** A [Zmat]: the rows of its frame, each under its index label, and its
    [metadata] dictionary. *)
Record Zmat : Type := mkZmat {
  frame : list (nat * zrow);
  metadata : gmap string float
}.

Definition index (z : Zmat) : list nat := fst <$> frame z.

(** The store of [Zmat] objects, by reference. *)
Abbreviation heap := (gmap nat Zmat).

(** Computations that read and write the store and may raise; the store
    survives an exception. *)
Definition M (A : Type) : Type := heap -> result A * heap.

Definition ret {A} (a : A) : M A := fun h => (Ok a, h).
Definition raise {A} (e : exn) : M A := fun h => (Raise e, h).
Definition lift {A} (r : result A) : M A := fun h => (r, h).
Definition bindM {A B} (m : M A) (k : A -> M B) : M B :=
  fun h => match m h with
           | (Ok a, h') => k a h'
           | (Raise e, h') => (Raise e, h')
           end.

Declare Scope heap_scope.
Delimit Scope heap_scope with heap.
Notation "x <- m ;; k" := (bindM m (fun x => k))
  (at level 100, m at next level, right associativity) : heap_scope.
Notation "m ;;; k" := (bindM m (fun _ => k))
  (at level 100, right associativity) : heap_scope.

(** Dereferencing. *)
Definition deref (l : nat) : M Zmat :=
  fun h => match h !! l with
           | Some z => (Ok z, h)
           | None => (Raise (AttributeError "dangling reference"), h)
           end.

(** [z.copy()]: a new object with the same frame and metadata. *)
Definition zmat_copy (l : nat) : M nat :=
  (z <- deref l ;;
   fun h => let l' := fresh (dom h) in (Ok l', <[l' := z]> h))%heap.

(** [z.metadata[key] = v] on the object at [l]. *)
Definition set_metadata (l : nat) (key : string) (v : float) : M unit :=
  (z <- deref l ;;
   fun h => (Ok tt, <[l := {| frame := frame z;
                             metadata := <[key := v]> (metadata z) |}]> h))%heap.

(** ** Applying a step: [_get_new_zm_f_generator] *)

(** [c.copy().reshape((3, len(c) // 3), order='F').T]: row [i] holds the
    entries [3 i], [3 i + 1], [3 i + 2] of the flat array. *)
Definition reshape_F_T (c : list float) : result ndarray2 :=
  let n := length c `div` 3 in
  if decide (3 * n = length c)
  then Ok {| dim0 := n; dim1 := 3;
             at2 := fun i j => default 0%float (c !! (3 * i + j)) |}
  else Raise (ValueError "cannot reshape array").

(** [C[:, [1, 2]] = np.rad2deg(C[:, [1, 2]])] *)
Definition rad2deg_angles (C : ndarray2) : ndarray2 :=
  {| dim0 := dim0 C; dim1 := dim1 C;
     at2 := fun i j => if decide (j = 1 ∨ j = 2) then rad2deg (at2 C i j)
                       else at2 C i j |}.

Section Assignment.

(** [z.safe_loc[labels, ['bond', 'angle', 'dihedral']] = C] is the indexed
    assignment of the geometry library: it checks the new values against
    the references of the rows, may insert dummy atoms (which adds rows and
    reorders the index), and may raise.  It is a collaborator of this
    module: what it returns, and the object it leaves behind also when it
    raises, are given by [safe_loc_setitem]. *)
Variable safe_loc_setitem : Zmat -> list nat -> ndarray2 -> result unit * Zmat.

(** The assignment on the object at [l]. *)
Definition safe_loc_assign (l : nat) (labels : list nat) (C : ndarray2) : M unit :=
  (z <- deref l ;;
   fun h => let '(r, z') := safe_loc_setitem z labels C in (r, <[l := z']> h))%heap.

(** The inner function [get_new_zm(p, previous_zmat)] of the closure over
    [zmolecule].  Its free name [C_rad] is read from the globals [g]; the
    parameter [p] is not used in the body. *)
Definition get_new_zm (g : gmap string pyval) (zmolecule : nat)
    (args : list pyval) : M nat :=
  match args with
  | [p; previous_zmat] =>
      (C_rad <- lift (load_global g "C_rad") ;;
       C_deg <- lift (match C_rad with
                      | PyFloatArray c => reshape_F_T c
                      | _ => Raise (AttributeError "copy")
                      end) ;;
       let C_deg := rad2deg_angles C_deg in
       new_zm <- match previous_zmat with
                 | PyRef l => zmat_copy l
                 | _ => raise (AttributeError "copy")
                 end ;;
       zm <- deref zmolecule ;;
       safe_loc_assign new_zm (index zm) C_deg ;;;
       ret new_zm)%heap
  | [] | [_] =>
      raise (TypeError
        "get_new_zm() missing required positional argument: 'previous_zmat'")
  | _ =>
      raise (TypeError "get_new_zm() takes 2 positional arguments")
  end.

End Assignment.

(** ** Evaluation adapter: the function [V] of [_get_V_function] *)

(** What the electronic calculation returns (a cclib data object). *)
Record calc_result : Type := mkcalc {
  scfenergies : list float;
  grads : list ndarray2
}.

(** [np.sum(grad_energy_X.T[:, :, None, None] * grad_X, axis=(0, 1))].
    The order in which numpy adds the operands of one entry is not fixed
    by its interface; they are added here in index order. *)
Definition contract (grad_energy_X : ndarray2) (grad_X : ndarray4)
    : result ndarray2 :=
  let gT := transpose grad_energy_X in
  (n0 <- broadcast_dim (dim0 gT) (d0 grad_X) ;;
   n1 <- broadcast_dim (dim1 gT) (d1 grad_X) ;;
   Ok {| dim0 := d2 grad_X; dim1 := d3 grad_X;
         at2 := fun k l =>
           sum_of (a ← seq 0 n0;
                   (fun i => PrimFloat.mul
                      (at2 gT (bidx (dim0 gT) a) (bidx (dim1 gT) i))
                      (at4 grad_X (bidx (d0 grad_X) a) (bidx (d1 grad_X) i) k l))
                   <$> seq 0 n1) |})%py.

(** [a[i, j0:] = v] *)
Definition set_row_from (a : ndarray2) (i j0 : nat) (v : float)
    : result ndarray2 :=
  if decide (i < dim0 a)
  then Ok {| dim0 := dim0 a; dim1 := dim1 a;
             at2 := fun r c => if decide (r = i ∧ j0 <= c) then v
                               else at2 a r c |}
  else Raise (IndexError "index is out of bounds for axis 0").

(** [for i in range(min(3, a.shape[0])): a[i, i:] = 0.] *)
Definition zero_gauge (a : ndarray2) : result ndarray2 :=
  foldl (fun acc i => (a' <- acc ;; set_row_from a' i i 0%float)%py)
        (Ok a) (seq 0 (min 3 (dim0 a))).

(** Lines 86 to 90: the Cartesian gradient in internal coordinates. *)
Definition coordinate_transform (grad_energy_X : ndarray2) (grad_X : ndarray4)
    : result ndarray2 :=
  (grad_energy_C <- contract grad_energy_X grad_X ;;
   zero_gauge grad_energy_C)%py.

(** The number of entries the loop of [zero_gauge] writes in an array of
    [n] rows and three columns: row [i] from column [i] on. *)
Definition gauge_fixed_count (n : nat) : nat :=
  sum_list ((fun i => 3 - i) <$> seq 0 (min 3 n)).

Section Evaluation.

(** The collaborators of [V]: the electronic calculation, the unit
    conversion of cclib and the Jacobian of the geometry library; and the
    indexed assignment of the geometry library, which the driver reaches
    through [get_new_zm]. *)
Variable calculate : Zmat -> result calc_result.
Variable convertor : float -> string -> string -> float.
Variable get_grad_cartesian : Zmat -> ndarray4.
Variable safe_loc_setitem : Zmat -> list nat -> ndarray2 -> result unit * Zmat.

Definition V (zmolecule : Zmat) : result (float * ndarray2 * ndarray2) :=
  (result <- calculate zmolecule ;;
   e0 <- index0 (scfenergies result) ;;
   let energy := convertor e0 "eV" "hartree" in
   g0 <- index0 (grads result) ;;
   let grad_energy_X := div_scalar g0 (convertor 1%float "bohr" "Angstrom") in
   let grad_X := get_grad_cartesian zmolecule in
   grad_energy_C <- coordinate_transform grad_energy_X grad_X ;;
   Ok (energy, grad_energy_X, grad_energy_C))%py.

(** ** Driver: the loop of [optimise] (lines 53 to 64) *)

Record driver_state : Type := mkstate {
  energies : list float;
  structures : list nat;
  grads_energy_C : list ndarray2;
  grad_energy_X : pyval;
  new_zm : nat
}.

(** [d.popleft()] *)
Definition popleft {A} (d : list A) : result (list A) :=
  match d with
  | [] => Raise (IndexError "pop from an empty deque")
  | _ :: d' => Ok d'
  end.

(** Lines 53 to 56. *)
Definition optimise_init (zmolecule : nat) : M driver_state :=
  (new_zm <- zmat_copy zmolecule ;;
   ret {| energies := []; structures := []; grads_energy_C := [];
          grad_energy_X := PyNone; new_zm := new_zm |})%heap.

(** Lines 58 to 64: one pass through the loop body. *)
Definition loop_body (g : gmap string pyval) (zmolecule : nat)
    (st : driver_state) : M driver_state :=
  (new_zm <- get_new_zm safe_loc_setitem g zmolecule
              [PyDeque (grads_energy_C st)] ;;
   zm <- deref new_zm ;;
   r <- lift (V zm) ;;
   let '(energy, grad_energy_X, grad_energy_C) := r in
   set_metadata new_zm "energy" energy ;;;
   let structures := structures st ++ [new_zm] in
   let energies := energies st ++ [energy] in
   d <- lift (popleft (grads_energy_C st)) ;;
   ret {| energies := energies; structures := structures;
          grads_energy_C := d ++ [grad_energy_C];
          grad_energy_X := PyMatrix grad_energy_X;
          new_zm := new_zm |})%heap.

(** Line 57: the [while] loop; [None] when the fuel runs out. *)
Fixpoint optimise_loop (fuel : nat) (g : gmap string pyval) (zmolecule : nat)
    (st : driver_state) (h : heap) : option (result driver_state * heap) :=
  match fuel with
  | 0 => None
  | S fuel' =>
      match _is_converged_defaults (energies st) (grad_energy_X st) with
      | Raise e => Some (Raise e, h)
      | Ok true => Some (Ok st, h)
      | Ok false =>
          match loop_body g zmolecule st h with
          | (Ok st', h') => optimise_loop fuel' g zmolecule st' h'
          | (Raise e, h') => Some (Raise e, h')
          end
      end
  end.

End Evaluation.

(** ** Output files: [rename_existing] *)

(** The working directory of the process on a POSIX system with
    case-sensitive names, all of whose entries the process may read and
    move, and which no other process changes during a call.

    An entry of a directory is a file with its content, a directory with
    its entries, or a symbolic link.  A link is given with what it leads to
    when the call is made: [Some n] for the entry it resolves to, [None]
    when it dangles. *)
Inductive node : Type :=
| File (content : string)
| Dir (entries : list (string * node))
| Symlink (target : option node).

(** What an entry is once the links are followed; [None] for a link that
    dangles. *)
Fixpoint follow (n : node) : option node :=
  match n with
  | Symlink t => match t with
                 | Some n' => follow n'
                 | None => None
                 end
  | _ => Some n
  end.

Definition is_dir (n : node) : bool :=
  match n with
  | Dir _ => true
  | _ => false
  end.

(** The entry called [c] among the entries of a directory. *)
Fixpoint entry (es : list (string * node)) (c : string) : option node :=
  match es with
  | [] => None
  | (k, m) :: es' => if decide (k = c) then Some m else entry es' c
  end.

(** [s.split('/')] *)
Fixpoint split_sep (s : string) : list string :=
  match s with
  | EmptyString => [EmptyString]
  | String c s' =>
      if Ascii.eqb c "/" then EmptyString :: split_sep s'
      else match split_sep s' with
           | x :: xs => String c x :: xs
           | [] => [String c EmptyString]
           end
  end.

(** ['/'.join(comps)] *)
Fixpoint join_sep (comps : list string) : string :=
  match comps with
  | [] => ""
  | [x] => x
  | x :: xs => x +:+ "/" +:+ join_sep xs
  end.

(** A string without separator. *)
Fixpoint sep_free (s : string) : bool :=
  match s with
  | EmptyString => true
  | String c s' => negb (Ascii.eqb c "/") && sep_free s'
  end.

(** The names that are not names of entries: the empty one, and the two
    that stand for a directory itself and for its parent. *)
Definition special (name : string) : bool :=
  bool_decide (name = "" ∨ name = "." ∨ name = "..").

(** What can be the name of an entry of the working directory. *)
Definition ordinary (name : string) : bool :=
  sep_free name && negb (special name).

(** A string without braces: as a format template it stands for itself. *)
Fixpoint brace_free (s : string) : bool :=
  match s with
  | EmptyString => true
  | String c s' =>
      negb (Ascii.eqb c "{") && negb (Ascii.eqb c "}") && brace_free s'
  end.

(** One round of the loop of [posixpath.normpath] over the components. *)
Definition normpath_step (initial_slashes : nat) (new_comps : list string)
    (comp : string) : list string :=
  if decide (comp = "" ∨ comp = ".") then new_comps
  else if decide (comp ≠ ".."
                  ∨ (initial_slashes = 0 ∧ new_comps = [])
                  ∨ (new_comps ≠ [] ∧ last new_comps = Some ".."))
       then new_comps ++ [comp]
       else removelast new_comps.

(** [os.path.normpath] of a POSIX system. *)
Definition normpath (path : string) : string :=
  if decide (path = "") then "."
  else
    let initial_slashes :=
      if String.prefix "/" path
      then if String.prefix "//" path && negb (String.prefix "///" path)
           then 2 else 1
      else 0 in
    let comps := foldl (normpath_step initial_slashes) [] (split_sep path) in
    let path := String.concat "" (replicate initial_slashes "/")
                +:+ join_sep comps in
    if decide (path = "") then "." else path.

(** [normpath(filepath).split(os.path.sep)[0]]; the list that [split]
    returns is never empty. *)
Definition first_component (filepath : string) : string :=
  match split_sep (normpath filepath) with
  | c :: _ => c
  | [] => ""
  end.

Section Files.

(** What lies outside the working directory is not part of the state:
    whether a path that leaves the working directory (an absolute one, or
    one that steps to a parent directory) exists is told by [exists_outside],
    which may depend on the working directory since such a path can lead
    back into it; and opening such a path, or a link, for writing is
    [open_outside]. *)
Variable exists_outside : gmap string node -> string -> bool.
Variable open_outside :
  gmap string node -> string -> string -> result unit * gmap string node.

(** [template.format(i)] for a template with braces, where the outcome
    depends on what stands between them: a name with a replacement field or
    an unmatched brace raises, a doubled brace stands for a single one. *)
Variable str_format : string -> nat -> result string.

(** The walk along the components of a relative path, from the working
    directory [fs].  [stack] holds the entries stepped into, the innermost
    first.  The result is [None] when the walk leaves what the state
    describes: at a step to the parent of the working directory, or to the
    parent of a directory reached through a link. *)
Fixpoint walk (fs : gmap string node) (stack : list node) (comps : list string)
    : option bool :=
  match comps with
  | [] =>
      match stack with
      | [] => Some true
      | n :: _ => Some (bool_decide (is_Some (follow n)))
      end
  | c :: comps' =>
      match stack with
      | [] =>
          if decide (c = "" ∨ c = ".") then walk fs [] comps'
          else if decide (c = "..") then None
          else match fs !! c with
               | Some n => walk fs [n] comps'
               | None => Some false
               end
      | n :: stack' =>
          match follow n with
          | Some (Dir es) =>
              if decide (c = "" ∨ c = ".") then walk fs stack comps'
              else if decide (c = "..")
                   then match n with
                        | Symlink _ => None
                        | _ => walk fs stack' comps'
                        end
                   else match entry es c with
                        | Some m => walk fs (m :: stack) comps'
                        | None => Some false
                        end
          | _ => Some false
          end
      end
  end.

(** [os.path.exists(filepath)] with the working directory [fs], which maps
    the names of its entries to the entries. *)
Definition os_path_exists (fs : gmap string node) (filepath : string) : bool :=
  if decide (filepath = "") then false
  else if String.prefix "/" filepath then exists_outside fs filepath
  else match walk fs [] (split_sep filepath) with
       | Some found => found
       | None => exists_outside fs filepath
       end.

(** [os.rename(src, dst)] for two names without separator.  An entry at
    [dst] that is not a directory is replaced without notice by one that is
    not a directory, and an empty directory by a directory. *)
Definition os_rename (fs : gmap string node) (src dst : string)
    : result unit * gmap string node :=
  if decide (src = "" ∨ dst = "") then (Raise (FileNotFoundError src), fs)
  else if special src || special dst
  then (Raise (OSError "Device or resource busy"), fs)
  else
    match fs !! src with
    | None => (Raise (FileNotFoundError src), fs)
    | Some n =>
        if decide (src = dst) then (Ok tt, fs)
        else
          match fs !! dst with
          | None => (Ok tt, <[dst := n]> (delete src fs))
          | Some (Dir es) =>
              if is_dir n
              then match es with
                   | [] => (Ok tt, <[dst := n]> (delete src fs))
                   | _ => (Raise (OSError "Directory not empty"), fs)
                   end
              else (Raise (IsADirectoryError dst), fs)
          | Some _ =>
              if is_dir n then (Raise (NotADirectoryError dst), fs)
              else (Ok tt, <[dst := n]> (delete src fs))
          end
    end.

(** The name [to_be_moved + '_' + str(i)]. *)
Definition backup_name (to_be_moved : string) (i : nat) : string :=
  to_be_moved +:+ "_" +:+ pretty i.

(** [(to_be_moved + '_{}').format] *)
Definition get_path (to_be_moved : string) (i : nat) : result string :=
  if brace_free to_be_moved then Ok (backup_name to_be_moved i)
  else str_format (to_be_moved +:+ "_{}") i.

(** The [while not found] loop entered with [end_]; the value of [end] when
    it is left, [None] when the fuel runs out. *)
Fixpoint find_end (fuel : nat) (fs : gmap string node) (to_be_moved : string)
    (end_ : nat) : option (result nat) :=
  match fuel with
  | 0 => None
  | S fuel' =>
      match get_path to_be_moved end_ with
      | Raise e => Some (Raise e)
      | Ok name =>
          if negb (os_path_exists fs name)
          then Some (Ok (end_ + 1))
          else find_end fuel' fs to_be_moved (end_ + 1)
      end
  end.

(** [range(hi, lo, -1)] *)
Definition range_down (hi lo : nat) : list nat := rev (seq (lo + 1) (hi - lo)).

(** [os.rename(get_path(i - 1), get_path(i))] *)
Definition shift_backup (fs : gmap string node) (to_be_moved : string)
    (i : nat) : result unit * gmap string node :=
  match get_path to_be_moved (i - 1) with
  | Raise e => (Raise e, fs)
  | Ok src =>
      match get_path to_be_moved i with
      | Raise e => (Raise e, fs)
      | Ok dst => os_rename fs src dst
      end
  end.

(** [for i in range(end - 1, 1, -1): os.rename(get_path(i - 1), get_path(i))];
    the loop ends at the first call that raises. *)
Definition shift_backups (fs : gmap string node) (to_be_moved : string)
    (end_ : nat) : result unit * gmap string node :=
  foldl (fun acc i =>
           match acc with
           | (Ok _, fs') => shift_backup fs' to_be_moved i
           | failed => failed
           end)
        (Ok tt, fs) (range_down (end_ - 1) 1).

(** The outcome of a call and the working directory it leaves, which after
    an exception is the one reached when it was raised. *)
Definition rename_existing (fuel : nat) (fs : gmap string node)
    (filepath : string) : option (result unit * gmap string node) :=
  if os_path_exists fs filepath
  then
    let to_be_moved := first_component filepath in
    match find_end fuel fs to_be_moved 1 with
    | None => None
    | Some (Raise e) => Some (Raise e, fs)
    | Some (Ok end_) =>
        match shift_backups fs to_be_moved end_ with
        | (Ok _, fs') =>
            match get_path to_be_moved 1 with
            | Raise e => Some (Raise e, fs')
            | Ok dst => Some (os_rename fs' to_be_moved dst)
            end
        | failed => Some failed
        end
    end
  else Some (Ok tt, fs).

(** [with open(name, 'w') as f: f.write(content)]: a file of the working
    directory is created, or truncated and written. *)
Definition write_file (fs : gmap string node) (name content : string)
    : result unit * gmap string node :=
  if decide (name = "") then (Raise (FileNotFoundError name), fs)
  else if special name then (Raise (IsADirectoryError name), fs)
  else if sep_free name
  then match fs !! name with
       | None | Some (File _) => (Ok tt, <[name := File content]> fs)
       | Some (Dir _) => (Raise (IsADirectoryError name), fs)
       | Some (Symlink _) => open_outside fs name content
       end
  else open_outside fs name content.

(** Lines 46 and 50 of [optimise] for one output file: the rotation, then
    the write. *)
Definition write_output (fuel : nat) (fs : gmap string node)
    (name content : string) : option (result unit * gmap string node) :=
  match rename_existing fuel fs name with
  | Some (Ok _, fs') => Some (write_file fs' name content)
  | other => other
  end.

(** [for filepath in [...]: rename_existing(filepath)] *)
Definition rotate_outputs (fuel : nat) (fs : gmap string node)
    (paths : list string) : option (result unit * gmap string node) :=
  foldl (fun acc filepath =>
           match acc with
           | Some (Ok _, fs') => rename_existing fuel fs' filepath
           | other => other
           end)
        (Some (Ok tt, fs)) paths.

(** One output after the other under the same name. *)
Definition write_all (fuel : nat) (fs : gmap string node) (name : string)
    (contents : list string) : option (result unit * gmap string node) :=
  foldl (fun acc c =>
           match acc with
           | Some (Ok _, fs') => write_output fuel fs' name c
           | other => other
           end)
        (Some (Ok tt, fs)) contents.

(** The first numbered suffix of [base] that does not exist in [fs]. *)
Definition first_free (fs : gmap string node) (base : string) (k : nat) : Prop :=
  1 <= k ∧ os_path_exists fs (backup_name base k) = false ∧
  ∀ i, 1 <= i < k → os_path_exists fs (backup_name base i) = true.

(** The statement that the search for a free suffix gives up with an error
    once the suffixes 1 to [N] are all taken. *)
Definition bounded_search (N : nat) : Prop :=
  ∀ (fs : gmap string node) (filepath : string),
    os_path_exists fs filepath = true →
    (∀ i, 1 <= i <= N →
       os_path_exists fs (backup_name (first_component filepath) i) = true) →
    ∀ fuel fs', rename_existing fuel fs filepath ≠ Some (Ok tt, fs').

End Files.

(** No entry of the working directory is a link. *)
Definition no_links (fs : gmap string node) : Prop :=
  ∀ name n, fs !! name = Some n → follow n = Some n.


(** A directory with the entry [base] and the backups 1 to [n] of it. *)
Definition with_backups (base : string) (n : nat) : gmap string node :=
  foldr (fun i m => <[backup_name base i := File (pretty i)]> m)
        {[ base := File "current" ]} (seq 1 n).

(** A report with the backups 1 and 3; a directory with an input file. *)
Definition gap_dir : gmap string node :=
  {[ "report.md" := File "new"; "report.md_1" := File "old 1";
     "report.md_3" := File "old 3" ]}.

Definition calc_dir : gmap string node :=
  {[ "run_el_calcs" := Dir [("run.inp", File "input")] ]}.

(** A directory that holds a report and nothing else. *)
Definition report_dir : gmap string node := {[ "report.md" := File "v0" ]}.


(** Nothing exists outside, nothing can be opened there, and every template
    with braces is refused. *)
Definition nothing_outside (fs : gmap string node) (filepath : string) : bool :=
  false.

Definition no_open (fs : gmap string node) (name content : string)
    : result unit * gmap string node :=
  (Raise (FileNotFoundError name), fs).

Definition no_format (template : string) (i : nat) : result string :=
  Raise (ValueError "Single '}' encountered in format string").

(** ** Output paths of [optimise] (lines 37 to 46) *)

(** The default paths for the base name [base] of the calling script:
    ['{}.md'.format(base)], ['{}.molden'.format(base)] and
    [join('{}_el_calcs'.format(base), '{}.inp'.format(base))]. *)
Definition default_md_out (base : string) : string := base +:+ ".md".

Definition default_molden_out (base : string) : string := base +:+ ".molden".

Definition default_el_calc_input (base : string) : string :=
  (base +:+ "_el_calcs") +:+ "/" +:+ (base +:+ ".inp").

(** The list [[md_out, molden_out, el_calc_input]] after the [None]
    arguments have been replaced by the defaults. *)
Definition output_paths (base : string)
    (md_out molden_out el_calc_input : option string) : list string :=
  [ default (default_md_out base) md_out;
    default (default_molden_out base) molden_out;
    default (default_el_calc_input base) el_calc_input ].

(** The entry found under suffix [i] of [name], suffix 0 being the name
    itself. *)
Definition version (fs : gmap string node) (name : string) (i : nat)
    : option node :=
  match i with
  | 0 => fs !! name
  | S _ => fs !! backup_name name i
  end.

(** ** Sample data *)

(** A Cartesian gradient of four atoms. *)
Definition sample_grad_energy_X : ndarray2 :=
  of_rows 3 [ [0.5; -0.25; 0.125]; [1; 2; 3]; [-1; 0; 1]; [0.5; 0.5; 0.5] ]%float.

(** A Jacobian of shape (3, 4, 4, 3): the derivative of coordinate [a] of
    atom [i] by internal coordinate [l] of atom [k] is 1 where [i = k] and
    [a = l], and 0 elsewhere. *)
Definition sample_grad_X : ndarray4 :=
  {| d0 := 3; d1 := 4; d2 := 4; d3 := 3;
     at4 := fun a i k l => if decide (i = k ∧ a = l) then 1%float else 0%float |}.

(** The statement that the transform returns [3 n] entries less the
    gauge-fixed ones. *)
Definition reduced_length (n : nat) (C : ndarray2) : Prop :=
  length (ravel C) = 3 * n - gauge_fixed_count n.

(** A structure of four atoms, stored at reference 0. *)
Definition sample_zmat : Zmat :=
  {| frame := [ (0, mkrow "O" "origin" 1%float "e_z" 2%float "e_x" 3%float);
                (1, mkrow "O" "0" 1.5%float "e_z" 90%float "e_x" 4%float);
                (2, mkrow "H" "0" 1%float "1" 100%float "e_x" 180%float);
                (3, mkrow "H" "1" 1%float "0" 100%float "2" 120%float) ];
     metadata := ∅ |}.

Definition sample_heap : heap := {[ 0 := sample_zmat ]}.

(** Twelve values to write: bonds in Angstrom, angles in radians. *)
Definition sample_C_rad : list float :=
  [ 2; 0; 0;  1.25; 1; 0;  1; 2; 3;  0.5; 1.5; 2.5 ]%float.

(** ** Progress report: the table of [_get_header] and [_get_table_row] *)

Definition newline : string := String (Ascii.ascii_of_nat 10) "".

Fixpoint spaces (n : nat) : string :=
  match n with
  | 0 => ""
  | S n' => String " "%char (spaces n')
  end.

(** [n * '-'] *)
Fixpoint dashes (n : nat) : string :=
  match n with
  | 0 => ""
  | S n' => String "-"%char (dashes n')
  end.

(** The precision of a string format: at most [prec] characters. *)
Definition truncate (prec : nat) (s : string) : string :=
  String.substring 0 prec s.

(** ['{:>w.p}'.format(s)] *)
Definition fmt_right (width prec : nat) (s : string) : string :=
  let t := truncate prec s in
  spaces (width - String.length t) +:+ t.

(** ['{:^w.p}'.format(s)]: of an odd number of padding characters the
    extra one goes to the right. *)
Definition fmt_center (width prec : nat) (s : string) : string :=
  let t := truncate prec s in
  let pad := width - String.length t in
  spaces (pad `div` 2) +:+ t +:+ spaces (pad - pad `div` 2).

(** ['|{:>4.4}| {:^16.16} | {:^16.16} | {:^28.28} |'.format] *)
Definition get_row (c1 c2 c3 c4 : string) : string :=
  "|" +:+ fmt_right 4 4 c1 +:+ "| " +:+ fmt_center 16 16 c2 +:+ " | "
  +:+ fmt_center 16 16 c3 +:+ " | " +:+ fmt_center 28 28 c4 +:+ " |".

Definition _get_table_header : string :=
  get_row "n" "energy [Hartree]" "delta [Hartree]"
          "grad_X_max [Hartree / Angstrom]"
  +:+ newline
  +:+ get_row (dashes 4) (dashes 16) (dashes 16) (dashes 28).

(** [d[key]] for a dictionary. *)
Definition dict_get {A} (d : gmap string A) (key : string) : result A :=
  match d !! key with
  | Some v => Ok v
  | None => Raise (KeyError key)
  end.

(** The numbers of one row of the table: [n], [energy], [delta] and
    [grad_energy_X_max] of [_get_table_row].  Of each dictionary of
    [calculated] the float-valued items are kept. *)
Definition table_row_values (calculated : list (gmap string float))
    (grad_energy_X : pyval) : result (nat * float * float * float) :=
  let n := length calculated in
  (last <- index_neg calculated 1 ;;
   energy <- dict_get last "energy" ;;
   delta <- (if decide (n = 1) then Ok 0%float
             else (last' <- index_neg calculated 1 ;;
                   e1 <- dict_get last' "energy" ;;
                   prev <- index_neg calculated 2 ;;
                   e0 <- dict_get prev "energy" ;;
                   Ok (PrimFloat.sub e1 e0))) ;;
   grad_energy_X_max <- abs_max grad_energy_X ;;
   Ok (n, energy, delta, grad_energy_X_max))%py.

Section Report.

(** ['{:w.pf}'.format(x)], the fixed-point notation of a float. *)
Variable format_f : nat → nat → float → string.

(** ['|{:>4}| {:16.10f} | {:16.10f} | {:28.10f} |\n'.format] *)
Definition get_str (n : nat) (energy delta grad_energy_X_max : float) : string :=
  "|" +:+ spaces (4 - String.length (pretty n)) +:+ pretty n +:+ "| "
  +:+ format_f 16 10 energy +:+ " | " +:+ format_f 16 10 delta +:+ " | "
  +:+ format_f 28 10 grad_energy_X_max +:+ " |" +:+ newline.

Definition _get_table_row (calculated : list (gmap string float))
    (grad_energy_X : pyval) : result string :=
  (v <- table_row_values calculated grad_energy_X ;;
   let '(n, energy, delta, grad_energy_X_max) := v in
   Ok (get_str n energy delta grad_energy_X_max))%py.

End Report.

(** Two axis lengths that broadcast. *)
Definition compatible (x y : nat) : Prop := x = y ∨ x = 1 ∨ y = 1.

(** * Properties *)

(** ** Convergence checker *)

Lemma ltb_irrefl (x : float) : PrimFloat.ltb x x = false.
Proof.
  rewrite ltb_spec. unfold SFltb, SFcompare.
  destruct (Prim2SF x) as [ | | |s m e]; simpl; try reflexivity.
  - destruct s; reflexivity.
  - change (PosDef.Pos.compare_cont Eq m m) with (Pos.compare m m).
    rewrite Z.compare_refl, Pos.compare_refl. destruct s; reflexivity.
Qed.

Lemma index_neg_snoc1 {A} (pre : list A) (x0 x1 : A) :
  index_neg (pre ++ [x0; x1]) 1 = Ok x1.
Proof.
  unfold index_neg. rewrite length_app. simpl.
  destruct (decide _) as [_|H]; [|lia].
  replace (length pre + 2 - 1) with (length pre + 1) by lia.
  rewrite lookup_app_r by lia.
  replace (length pre + 1 - length pre) with 1 by lia. reflexivity.
Qed.

Lemma index_neg_snoc2 {A} (pre : list A) (x0 x1 : A) :
  index_neg (pre ++ [x0; x1]) 2 = Ok x0.
Proof.
  unfold index_neg. rewrite length_app. simpl.
  destruct (decide _) as [_|H]; [|lia].
  replace (length pre + 2 - 2) with (length pre) by lia.
  rewrite lookup_app_r by lia.
  replace (length pre - length pre) with 0 by lia. reflexivity.
Qed.

Lemma is_converged_snoc pre e0 e1 g etol gtol :
  _is_converged (pre ++ [e0; e1]) g etol gtol =
  if PrimFloat.ltb (PrimFloat.abs (PrimFloat.sub e1 e0)) etol
  then (m <- abs_max g ;; Ok (PrimFloat.ltb m gtol))%py
  else Ok false.
Proof.
  unfold _is_converged.
  rewrite index_neg_snoc1, index_neg_snoc2. simpl.
  rewrite length_app. simpl.
  replace (length pre + 2) with (S (S (length pre))) by lia. reflexivity.
Qed.

Lemma two_last {A} (l : list A) :
  2 <= length l → ∃ pre x0 x1, l = pre ++ [x0; x1].
Proof.
  intros H. destruct (rev l) as [|x1 [|x0 r]] eqn:E.
  - apply (f_equal length) in E. rewrite length_rev in E. simpl in E. lia.
  - apply (f_equal length) in E. rewrite length_rev in E. simpl in E. lia.
  - exists (rev r), x0, x1. rewrite <- (rev_involutive l), E. simpl.
    rewrite <- app_assoc. reflexivity.
Qed.

(** C10: with fewer than two energies the result of [_is_converged] does
    not depend on the gradient argument, which is not read: although
    [abs(None)] is a [TypeError], the call with [None] returns [False].  This
    is the first convergence check of [optimise], made with no energy and
    [grad_energy_X = None]. *)
Theorem is_converged_none_gradient (es : list float) (etol gtol : float) :
  length es < 2 →
  (∀ g : pyval, _is_converged es g etol gtol = Ok false)
  ∧ _is_converged es PyNone etol gtol = Ok false
  ∧ (∃ msg, abs_max PyNone = Raise (TypeError msg))
  ∧ (∀ (zmolecule : nat) (h h' : heap) (st : driver_state),
       optimise_init zmolecule h = (Ok st, h') →
       energies st = [] ∧ grad_energy_X st = PyNone
       ∧ _is_converged_defaults (energies st) (grad_energy_X st) = Ok false).
Proof.
  intros H.
  assert (Hall : ∀ g : pyval, _is_converged es g etol gtol = Ok false).
  { intros g. unfold _is_converged.
    destruct (length es) as [|[|n]]; [reflexivity|reflexivity|lia]. }
  split; [exact Hall|]. split; [apply Hall|]. split; [eexists; reflexivity|].
  intros zmolecule h h' st Hinit.
  unfold optimise_init, zmat_copy, bindM, deref, ret in Hinit.
  destruct (h !! zmolecule); [|discriminate].
  injection Hinit as <- _. simpl. auto.
Qed.

Lemma is_converged_none_gradient_witness :
  _is_converged [] PyNone etol_default gtol_default = Ok false.
Proof.
  apply (is_converged_none_gradient [] etol_default gtol_default).
  simpl. lia.
Defined.

(** With two energies whose difference is below the tolerance the gradient
    is read, and [None] is then a [TypeError]. *)
Lemma is_converged_none_gradient_read :
  ∃ msg, _is_converged [0%float; 0%float] PyNone etol_default gtol_default
         = Raise (TypeError msg).
Proof. eexists. vm_compute. reflexivity. Qed.

(** ** Step generator *)

(** C3: [get_next_step] called with a gradient history whose length is not
    2, in particular 0, 1 or 3, raises the error of an invalid history
    length, whatever the module globals and the gradients are (nothing is
    read or computed before).  With a history of two gradients it does not
    raise that error: it goes on to read the name [next_step]. *)
Theorem get_next_step_history_length (g : gmap string pyval)
    (grads : list ndarray2) :
  (length grads ≠ 2 → get_next_step g grads = Raise InvalidHistoryLength)
  ∧ (length grads = 2 →
     get_next_step g grads ≠ Raise InvalidHistoryLength
     ∧ get_next_step g grads = load_global g "next_step")
  ∧ get_next_step g [] = Raise InvalidHistoryLength
  ∧ (∀ a, get_next_step g [a] = Raise InvalidHistoryLength)
  ∧ (∀ a b c, get_next_step g [a; b; c] = Raise InvalidHistoryLength).
Proof.
  unfold get_next_step. split; [|split; [|split; [|split]]].
  - intros H. destruct (decide _); [reflexivity|contradiction].
  - intros H. destruct (decide _) as [Hn|_]; [contradiction|].
    split; [|reflexivity].
    unfold load_global. destruct (g !! "next_step"); discriminate.
  - reflexivity.
  - reflexivity.
  - reflexivity.
Qed.

Lemma get_next_step_history_length_witness :
  get_next_step module_globals [] = Raise InvalidHistoryLength
  ∧ get_next_step module_globals [of_rows 3 []; of_rows 3 []]
    ≠ Raise InvalidHistoryLength.
Proof.
  split.
  - apply (proj1 (get_next_step_history_length module_globals [])).
    simpl. lia.
  - apply (proj1 (proj2 (get_next_step_history_length module_globals
                           [of_rows 3 []; of_rows 3 []]))).
    reflexivity.
Defined.

(** The module binds no name [next_step]: with a history of two gradients
    the call ends in a [NameError]. *)
Lemma get_next_step_two_gradients (a b : ndarray2) :
  get_next_step module_globals [a; b] = Raise (NameError "next_step").
Proof. reflexivity. Qed.

(** ** Coordinate transform *)

Lemma contract_shape (gX : ndarray2) (grad_X : ndarray4) :
  dim1 gX = d0 grad_X → dim0 gX = d1 grad_X →
  ∃ C, contract gX grad_X = Ok C ∧ dim0 C = d2 grad_X ∧ dim1 C = d3 grad_X.
Proof.
  intros H0 H1. unfold contract, broadcast_dim. simpl.
  rewrite !decide_True by assumption. simpl.
  eexists. split; [reflexivity|]. simpl. auto.
Qed.

Lemma contract_dims (gX : ndarray2) (grad_X : ndarray4) (C : ndarray2) :
  contract gX grad_X = Ok C → dim0 C = d2 grad_X ∧ dim1 C = d3 grad_X.
Proof.
  unfold contract. intros H.
  destruct (broadcast_dim _ _); simpl in H; [|discriminate].
  destruct (broadcast_dim _ _); simpl in H; [|discriminate].
  injection H as <-. simpl. auto.
Qed.

(** The loop of [zero_gauge] over the first [m] rows. *)
Lemma zero_rows_spec (a : ndarray2) (m : nat) :
  m <= dim0 a →
  ∃ a', foldl (fun acc i => (x <- acc ;; set_row_from x i i 0%float)%py)
              (Ok a) (seq 0 m) = Ok a'
        ∧ dim0 a' = dim0 a ∧ dim1 a' = dim1 a
        ∧ ∀ r c, at2 a' r c
                 = if decide (r < m ∧ r <= c) then 0%float else at2 a r c.
Proof.
  induction m as [|m IH]; intros Hm.
  - exists a. simpl. repeat split; try reflexivity.
  - destruct IH as (a1 & Hfold & Hd0 & Hd1 & Hat); [lia|].
    rewrite seq_S, foldl_app, Hfold. simpl.
    unfold set_row_from. rewrite decide_True by lia.
    eexists. split; [reflexivity|]. simpl. repeat split; try assumption.
    intros r c. rewrite Hat.
    repeat destruct (decide _); try reflexivity; lia.
Qed.

Lemma zero_gauge_spec (a : ndarray2) :
  ∃ a', zero_gauge a = Ok a' ∧ dim0 a' = dim0 a ∧ dim1 a' = dim1 a
        ∧ ∀ r c, at2 a' r c
                 = if decide (r < min 3 (dim0 a) ∧ r <= c) then 0%float
                   else at2 a r c.
Proof. apply zero_rows_spec. lia. Qed.

Lemma coordinate_transform_inv (gX : ndarray2) (grad_X : ndarray4) (C : ndarray2) :
  coordinate_transform gX grad_X = Ok C →
  ∃ C0, contract gX grad_X = Ok C0
        ∧ dim0 C = dim0 C0 ∧ dim1 C = dim1 C0
        ∧ ∀ r c, at2 C r c
                 = if decide (r < min 3 (dim0 C0) ∧ r <= c) then 0%float
                   else at2 C0 r c.
Proof.
  unfold coordinate_transform. intros H.
  destruct (contract gX grad_X) as [C0|e]; simpl in H; [|discriminate].
  destruct (zero_gauge_spec C0) as (a' & Hz & Hd0 & Hd1 & Hat).
  rewrite Hz in H. injection H as <-. exists C0. auto.
Qed.

Lemma V_inv calculate convertor get_grad_cartesian zm energy gX gC :
  V calculate convertor get_grad_cartesian zm = Ok (energy, gX, gC) →
  coordinate_transform gX (get_grad_cartesian zm) = Ok gC.
Proof.
  unfold V. intros H.
  destruct (calculate zm) as [r|]; simpl in H; [|discriminate].
  destruct (index0 (scfenergies r)); simpl in H; [|discriminate].
  destruct (index0 (grads r)); simpl in H; [|discriminate].
  destruct (coordinate_transform _ _) eqn:E; simpl in H; [|discriminate].
  injection H as _ <- <-. exact E.
Qed.

(** C4: the internal gradient that the coordinate transform produces holds
    exactly [0.] at the positions [i, i:] of every row [i < 3] it has; this
    holds for the gradient [V] returns, for every calculation result and
    every structure.  For a Cartesian gradient and a Jacobian whose contracted
    axes agree the transform does produce a gradient. *)
Theorem coordinate_transform_gauge_zero (gX : ndarray2) (grad_X : ndarray4) :
  (∀ C, coordinate_transform gX grad_X = Ok C →
        ∀ i j, i < 3 → i < dim0 C → i <= j → at2 C i j = 0%float)
  ∧ (∀ calculate convertor zm energy gC,
        V calculate convertor (fun _ => grad_X) zm = Ok (energy, gX, gC) →
        ∀ i j, i < 3 → i < dim0 gC → i <= j → at2 gC i j = 0%float)
  ∧ (dim1 gX = d0 grad_X → dim0 gX = d1 grad_X →
     ∃ C, coordinate_transform gX grad_X = Ok C).
Proof.
  assert (Hz : ∀ C, coordinate_transform gX grad_X = Ok C →
        ∀ i j, i < 3 → i < dim0 C → i <= j → at2 C i j = 0%float).
  { intros C HC i j Hi Hrow Hij.
    destruct (coordinate_transform_inv _ _ _ HC) as (C0 & _ & Hd0 & _ & Hat).
    rewrite Hat, decide_True by lia. reflexivity. }
  split; [exact Hz|]. split.
  - intros calculate convertor zm energy gC HV.
    apply V_inv in HV. simpl in HV. exact (Hz gC HV).
  - intros H0 H1. unfold coordinate_transform.
    destruct (contract_shape gX grad_X H0 H1) as (C0 & -> & _). simpl.
    destruct (zero_gauge_spec C0) as (a' & -> & _). eauto.
Qed.

Lemma coordinate_transform_gauge_zero_witness :
  ∃ C, coordinate_transform sample_grad_energy_X sample_grad_X = Ok C
       ∧ at2 C 1 2 = 0%float.
Proof.
  destruct (proj2 (proj2 (coordinate_transform_gauge_zero
              sample_grad_energy_X sample_grad_X)) eq_refl eq_refl) as [C HC].
  exists C. split; [exact HC|].
  apply (proj1 (coordinate_transform_gauge_zero
                  sample_grad_energy_X sample_grad_X) C HC); [lia| |lia].
  destruct (coordinate_transform_inv _ _ _ HC) as (C0 & H0 & -> & _).
  apply contract_dims in H0 as [-> _]. simpl. lia.
Defined.

Lemma length_ravel (a : ndarray2) : length (ravel a) = dim0 a * dim1 a.
Proof.
  unfold ravel.
  assert (H : ∀ l : list nat,
             length (l ≫= λ i, (λ j, at2 a i j) <$> seq 0 (dim1 a))
             = length l * dim1 a).
  { induction l as [|i l IH]; [reflexivity|].
    rewrite bind_cons, length_app, IH, length_fmap, length_seq. simpl. lia. }
  rewrite H, length_seq. reflexivity.
Qed.

Lemma coordinate_transform_rows (gX : ndarray2) (grad_X : ndarray4) (n : nat) :
  dim0 gX = n → dim1 gX = 3 →
  d0 grad_X = 3 → d1 grad_X = n → d2 grad_X = n → d3 grad_X = 3 →
  ∃ C, coordinate_transform gX grad_X = Ok C
       ∧ dim0 C = n ∧ dim1 C = 3
       ∧ ∀ i j, at2 C i j = 0%float ∨ ¬ (i < min 3 n ∧ i <= j).
Proof.
  intros Hg0 Hg1 H0 H1 H2 H3.
  destruct (contract_shape gX grad_X) as (C0 & HC0 & Hc0 & Hc1); [congruence..|].
  destruct (zero_gauge_spec C0) as (C & HC & Hd0 & Hd1 & Hat).
  exists C. unfold coordinate_transform. rewrite HC0. simpl.
  split; [exact HC|].
  split; [congruence|]. split; [congruence|].
  intros i j. rewrite Hat, Hc0, H2.
  destruct (decide _); [left; reflexivity|right; assumption].
Qed.

(** C8, as amended: for a Cartesian gradient of [n] atoms and the Jacobian
    of a structure of [n] atoms, of shape (3, n, n, 3), the coordinate
    transform returns an array of [n] rows and 3 columns, [3 n] entries in
    all: the gauge-fixed entries are set to zero where they are and stay
    part of the output. *)
Theorem coordinate_transform_shape (gX : ndarray2) (grad_X : ndarray4) (n : nat) :
  dim0 gX = n → dim1 gX = 3 →
  d0 grad_X = 3 → d1 grad_X = n → d2 grad_X = n → d3 grad_X = 3 →
  ∃ C, coordinate_transform gX grad_X = Ok C
       ∧ dim0 C = n ∧ dim1 C = 3
       ∧ length (ravel C) = 3 * n
       ∧ ∀ i j, i < min 3 n → i <= j → at2 C i j = 0%float.
Proof.
  intros Hg0 Hg1 H0 H1 H2 H3.
  destruct (coordinate_transform_rows gX grad_X n Hg0 Hg1 H0 H1 H2 H3)
    as (C & HC & Hd0 & Hd1 & Hat).
  exists C. split; [exact HC|]. split; [exact Hd0|]. split; [exact Hd1|].
  split.
  - rewrite length_ravel, Hd0, Hd1. lia.
  - intros i j Hi Hij. destruct (Hat i j) as [Hz|Hn]; [exact Hz|].
    exfalso. apply Hn. split; assumption.
Qed.

Lemma coordinate_transform_shape_witness :
  ∃ C, coordinate_transform sample_grad_energy_X sample_grad_X = Ok C
       ∧ dim0 C = 4 ∧ dim1 C = 3 ∧ length (ravel C) = 12.
Proof.
  destruct (coordinate_transform_shape sample_grad_energy_X sample_grad_X 4
              eq_refl eq_refl eq_refl eq_refl eq_refl eq_refl)
    as (C & HC & H0 & H1 & Hl & _).
  exists C. auto.
Defined.

(** The transform of the sample data has 12 entries, six of them
    gauge-fixed; it is not an array of 6 entries. *)
Lemma coordinate_transform_length_counterexample :
  ∃ C, coordinate_transform sample_grad_energy_X sample_grad_X = Ok C
       ∧ gauge_fixed_count 4 = 6
       ∧ length (ravel C) = 12
       ∧ dim0 C = 4
       ∧ ¬ reduced_length 4 C.
Proof.
  destruct (coordinate_transform_rows sample_grad_energy_X sample_grad_X 4
              eq_refl eq_refl eq_refl eq_refl eq_refl eq_refl)
    as (C & HC & H0 & H1 & _).
  assert (Hl : length (ravel C) = 12) by (rewrite length_ravel, H0, H1; reflexivity).
  exists C. split; [exact HC|]. split; [reflexivity|].
  split; [exact Hl|]. split; [exact H0|].
  unfold reduced_length. rewrite Hl. vm_compute. lia.
Qed.

(** ** Applying a step *)

Lemma reshape_F_T_ok (c : list float) (n : nat) :
  length c = 3 * n →
  ∃ C, reshape_F_T c = Ok C ∧ dim0 C = n ∧ dim1 C = 3
       ∧ ∀ i j, at2 C i j = default 0%float (c !! (3 * i + j)).
Proof.
  intros Hc. unfold reshape_F_T.
  assert (Hn : length c `div` 3 = n).
  { rewrite Hc, Nat.mul_comm. apply Nat.div_mul. lia. }
  rewrite Hn, decide_True by lia.
  eexists. split; [reflexivity|]. simpl. auto.
Qed.

(** No path through [get_new_zm] changes an object that exists when it is
    called, whatever the assignment of the geometry library does to the
    copy. *)
Lemma get_new_zm_preserves safe_loc_setitem g zl args (h : heap) r h' :
  get_new_zm safe_loc_setitem g zl args h = (r, h') →
  ∀ l z, h !! l = Some z → h' !! l = Some z.
Proof.
  intros Hrun l z Hl.
  assert (Hfresh : fresh (dom h) ≠ l).
  { intros <-. apply (is_fresh (dom h)). apply elem_of_dom. eauto. }
  unfold get_new_zm in Hrun.
  destruct args as [|p [|pz [|x rest]]];
    try (unfold raise in Hrun; injection Hrun as <- <-; exact Hl).
  unfold bindM, lift, raise, ret, load_global, zmat_copy, deref,
    safe_loc_assign, bindM, raise, deref in Hrun.
  repeat (case_match; simplify_eq; try assumption).
  all: rewrite ?lookup_insert_ne by assumption; try assumption.
Qed.

(** With [C_rad] unbound the first statement of the body raises, before
    anything is copied or assigned. *)
Lemma get_new_zm_unbound safe_loc_setitem g zl p previous_zmat (h : heap) :
  g !! "C_rad" = None →
  get_new_zm safe_loc_setitem g zl [p; previous_zmat] h
  = (Raise (NameError "C_rad"), h).
Proof.
  intros Hg. unfold get_new_zm, bindM, lift, load_global. rewrite Hg.
  reflexivity.
Qed.

(** C5: what [get_new_zm] does with a step.  The module binds no name
    [C_rad], and the body reads [C_rad] where its parameter [p] is meant:
    for every step [p], every previous structure and every behaviour of the
    geometry library the call raises [NameError] and leaves the store as it
    was, so no new structure is produced.  That the originating structure
    is never changed holds on every path and for all globals. *)
Theorem get_new_zm_unbound_C_rad
    (safe_loc_setitem : Zmat → list nat → ndarray2 → result unit * Zmat)
    (zmolecule : nat) (p previous_zmat : pyval) (h : heap) :
  module_globals !! "C_rad" = None
  ∧ get_new_zm safe_loc_setitem module_globals zmolecule [p; previous_zmat] h
    = (Raise (NameError "C_rad"), h)
  ∧ (∀ new_zm h',
       get_new_zm safe_loc_setitem module_globals zmolecule [p; previous_zmat] h
       ≠ (Ok new_zm, h'))
  ∧ ∀ g args r h',
      get_new_zm safe_loc_setitem g zmolecule args h = (r, h') →
      ∀ l z, h !! l = Some z → h' !! l = Some z.
Proof.
  split; [reflexivity|].
  split; [apply get_new_zm_unbound; reflexivity|].
  split.
  - intros new_zm h'. rewrite get_new_zm_unbound by reflexivity. discriminate.
  - intros g args r h'. apply get_new_zm_preserves.
Qed.

Lemma get_new_zm_unbound_C_rad_witness :
  get_new_zm (fun z _ _ => (Ok tt, z)) module_globals 0
    [PyFloatArray sample_C_rad; PyRef 0] sample_heap
  = (Raise (NameError "C_rad"), sample_heap)
  ∧ ∀ r h',
      get_new_zm (fun z _ _ => (Ok tt, z))
        (<["C_rad" := PyFloatArray sample_C_rad]> module_globals) 0
        [PyFloatArray sample_C_rad; PyRef 0] sample_heap = (r, h') →
      h' !! 0 = Some sample_zmat.
Proof.
  destruct (get_new_zm_unbound_C_rad (fun z _ _ => (Ok tt, z)) 0
              (PyFloatArray sample_C_rad) (PyRef 0) sample_heap)
    as (_ & Hrun & _ & Hkeep).
  split; [exact Hrun|].
  intros r h' Hr. exact (Hkeep _ _ _ _ Hr 0 sample_zmat eq_refl).
Defined.

(** C9: a zero step through [get_new_zm].  The call raises [NameError] on
    the unbound [C_rad] as for every other step, so no structure comes
    back; and for all globals the outcome of a call does not depend on the
    step it is given, since the body never reads [p]. *)
Theorem get_new_zm_zero_step_raises
    (safe_loc_setitem : Zmat → list nat → ndarray2 → result unit * Zmat)
    (zmolecule n : nat) (previous_zmat : pyval) (h : heap) :
  get_new_zm safe_loc_setitem module_globals zmolecule
    [PyFloatArray (replicate n 0%float); previous_zmat] h
  = (Raise (NameError "C_rad"), h)
  ∧ ∀ (g : gmap string pyval) (p : pyval),
      get_new_zm safe_loc_setitem g zmolecule [p; previous_zmat] h
      = get_new_zm safe_loc_setitem g zmolecule
          [PyFloatArray (replicate n 0%float); previous_zmat] h.
Proof.
  split; [apply get_new_zm_unbound; reflexivity|].
  intros g p. reflexivity.
Qed.

(** ** Driver *)

(** C2: the gradient history with which [optimise] enters its loop.  For
    every starting structure the history is initialised empty, the first
    convergence check is false, and the first pass through the loop body
    therefore runs on a history of length 0, not 2: the step generator
    rejects it, [popleft] has nothing to discard, and the pass itself ends in
    the [TypeError] of calling [get_new_zm] with one argument. *)
Theorem optimise_first_pass_history
    (calculate : Zmat → result calc_result)
    (convertor : float → string → string → float)
    (get_grad_cartesian : Zmat → ndarray4)
    (safe_loc_setitem : Zmat → list nat → ndarray2 → result unit * Zmat)
    (g : gmap string pyval) (zmolecule : nat) (h : heap) (zm : Zmat) :
  h !! zmolecule = Some zm →
  ∃ st h0,
    optimise_init zmolecule h = (Ok st, h0)
    ∧ grads_energy_C st = []
    ∧ length (grads_energy_C st) ≠ 2
    ∧ _is_converged_defaults (energies st) (grad_energy_X st) = Ok false
    ∧ get_next_step g (grads_energy_C st) = Raise InvalidHistoryLength
    ∧ (∃ msg, popleft (grads_energy_C st) = Raise (IndexError msg))
    ∧ ∃ msg,
        loop_body calculate convertor get_grad_cartesian safe_loc_setitem
          g zmolecule st h0
        = (Raise (TypeError msg), h0)
        ∧ ∀ fuel,
            optimise_loop calculate convertor get_grad_cartesian
              safe_loc_setitem (S fuel) g zmolecule st h0
            = Some (Raise (TypeError msg), h0).
Proof.
  intros Hzm. unfold optimise_init, zmat_copy, bindM, deref, ret. rewrite Hzm.
  eexists _, _. split; [reflexivity|]. simpl.
  split; [reflexivity|]. split; [lia|]. split; [reflexivity|].
  split; [reflexivity|]. split; [eexists; reflexivity|].
  eexists. split; [reflexivity|]. intros fuel. reflexivity.
Qed.

Lemma optimise_first_pass_history_witness :
  ∃ st h0,
    optimise_init 0 sample_heap = (Ok st, h0)
    ∧ grads_energy_C st = []
    ∧ get_next_step module_globals (grads_energy_C st)
      = Raise InvalidHistoryLength.
Proof.
  destruct (optimise_first_pass_history
              (fun _ => Ok {| scfenergies := [(-1)%float];
                              grads := [sample_grad_energy_X] |})
              (fun x _ _ => x) (fun _ => sample_grad_X)
              (fun z _ _ => (Ok tt, z))
              module_globals 0 sample_heap sample_zmat eq_refl)
    as (st & h0 & Hinit & Hempty & _ & _ & Hstep & _).
  exists st, h0. auto.
Defined.

(** ** Output files *)

Lemma backup_name_inj (base : string) (i j : nat) :
  backup_name base i = backup_name base j → i = j.
Proof.
  unfold backup_name. intros H.
  apply String.app_inj in H. apply String.app_inj in H.
  exact (pretty_nat_inj _ _ H).
Qed.

Lemma string_length_app (s1 s2 : string) :
  String.length (s1 +:+ s2) = String.length s1 + String.length s2.
Proof. induction s1 as [|c s1 IH]; simpl; [reflexivity|]. rewrite IH. reflexivity. Qed.

Lemma backup_name_ne_base (base : string) (i : nat) : backup_name base i ≠ base.
Proof.
  unfold backup_name. intros H.
  apply (f_equal String.length) in H.
  rewrite !string_length_app in H. simpl in H. lia.
Qed.

Lemma sep_free_app (s1 s2 : string) :
  sep_free (s1 +:+ s2) = sep_free s1 && sep_free s2.
Proof.
  induction s1 as [|c s1 IH]; [reflexivity|].
  change (sep_free (String c (s1 +:+ s2))
          = sep_free (String c s1) && sep_free s2).
  simpl. rewrite IH. destruct (Ascii.eqb c "/"); reflexivity.
Qed.

Lemma sep_free_pretty_N_go (x : N) (s : string) :
  sep_free s = true → sep_free (pretty_N_go x s) = true.
Proof.
  revert s. induction (N.lt_wf_0 x) as [x _ IH]; intros s Hs.
  assert (x = 0 ∨ 0 < x)%N as [->|Hx] by lia.
  - rewrite pretty_N_go_0. exact Hs.
  - rewrite pretty_N_go_step by exact Hx. apply IH.
    + apply N.div_lt; lia.
    + simpl. rewrite Hs. unfold pretty_N_char.
      repeat case_match; reflexivity.
Qed.

Lemma sep_free_pretty (i : nat) : sep_free (pretty i) = true.
Proof.
  unfold pretty, pretty_nat, pretty, pretty_N.
  destruct (decide _); [reflexivity|].
  apply sep_free_pretty_N_go. reflexivity.
Qed.

Lemma sep_free_backup_name (base : string) (i : nat) :
  sep_free base = true → sep_free (backup_name base i) = true.
Proof.
  intros H. unfold backup_name.
  rewrite !sep_free_app, H, sep_free_pretty. reflexivity.
Qed.

(** A numbered backup name has an underscore, which none of the special
    names has. *)
Lemma special_backup_name (base : string) (i : nat) :
  special (backup_name base i) = false.
Proof.
  unfold special. apply bool_decide_eq_false.
  unfold backup_name.
  destruct base as [|c1 [|c2 [|c3 base]]].
  - change (("" +:+ "_") +:+ pretty i) with (String "_" (pretty i)).
    intros [H|[H|H]]; discriminate H.
  - change ((String c1 "" +:+ "_") +:+ pretty i)
      with (String c1 (String "_" (pretty i))).
    intros [H|[H|H]]; discriminate H.
  - change ((String c1 (String c2 "") +:+ "_") +:+ pretty i)
      with (String c1 (String c2 (String "_" (pretty i)))).
    intros [H|[H|H]]; discriminate H.
  - change ((String c1 (String c2 (String c3 base)) +:+ "_") +:+ pretty i)
      with (String c1 (String c2 (String c3 ((base +:+ "_") +:+ pretty i)))).
    intros [H|[H|H]]; discriminate H.
Qed.

Lemma ordinary_backup_name (base : string) (i : nat) :
  sep_free base = true → ordinary (backup_name base i) = true.
Proof.
  intros H. unfold ordinary.
  rewrite sep_free_backup_name by exact H.
  rewrite special_backup_name. reflexivity.
Qed.

Lemma split_sep_nonempty (s : string) : split_sep s ≠ [].
Proof.
  destruct s as [|c s]; simpl; [discriminate|].
  destruct (Ascii.eqb c "/"); [discriminate|].
  destruct (split_sep s); discriminate.
Qed.

Lemma split_sep_sep_free (s : string) : sep_free s = true → split_sep s = [s].
Proof.
  induction s as [|c s IH]; [reflexivity|]. simpl.
  destruct (Ascii.eqb c "/"); simpl; [discriminate|].
  intros H. rewrite (IH H). reflexivity.
Qed.

(** The components that [split] returns have no separator. *)
Lemma split_sep_Forall (s : string) :
  Forall (fun c => sep_free c = true) (split_sep s).
Proof.
  induction s as [|c s IH]; simpl.
  - constructor; [reflexivity|constructor].
  - destruct (Ascii.eqb c "/") eqn:E.
    + constructor; [reflexivity|exact IH].
    + destruct (split_sep s) as [|x xs].
      * constructor; [simpl; rewrite E; reflexivity|constructor].
      * inversion IH as [|? ? Hx Hxs]; subst.
        constructor; [simpl; rewrite E, Hx; reflexivity|exact Hxs].
Qed.

Lemma first_component_sep_free (filepath : string) :
  sep_free (first_component filepath) = true.
Proof.
  unfold first_component.
  pose proof (split_sep_Forall (normpath filepath)) as H.
  destruct (split_sep (normpath filepath)) as [|c cs]; [reflexivity|].
  inversion H; assumption.
Qed.

Lemma ordinary_inv (name : string) :
  ordinary name = true →
  sep_free name = true ∧ name ≠ "" ∧ name ≠ "." ∧ name ≠ "..".
Proof.
  unfold ordinary, special. intros H.
  apply andb_true_iff in H as [H1 H2].
  apply negb_true_iff, bool_decide_eq_false in H2.
  split; [exact H1|]. repeat split; intros ->; apply H2; auto.
Qed.

Lemma ordinary_special (name : string) :
  ordinary name = true → special name = false.
Proof.
  unfold ordinary. intros H. apply andb_true_iff in H as [_ H].
  apply negb_true_iff in H. exact H.
Qed.

Lemma sep_free_prefix (name : string) :
  sep_free name = true → String.prefix "/" name = false.
Proof.
  destruct name as [|c name]; [reflexivity|]. intros H.
  change (negb (Ascii.eqb c "/") && sep_free name = true) in H.
  apply andb_true_iff in H as [H _]. apply negb_true_iff in H.
  unfold String.prefix.
  destruct (ascii_dec "/" c) as [E|_]; [|reflexivity].
  rewrite <- E in H. discriminate H.
Qed.

Section RotationFacts.

Variable exists_outside : gmap string node → string → bool.
Variable open_outside :
  gmap string node → string → string → result unit * gmap string node.
Variable str_format : string → nat → result string.

(** For a name of the working directory, [os.path.exists] looks the name
    up and follows the link, if it is one. *)
Lemma exists_name (fs : gmap string node) (name : string) :
  ordinary name = true →
  os_path_exists exists_outside fs name
  = match fs !! name with
    | Some n => bool_decide (is_Some (follow n))
    | None => false
    end.
Proof.
  intros Hord. apply ordinary_inv in Hord as (Hsep & H0 & H1 & H2).
  unfold os_path_exists.
  rewrite decide_False by exact H0.
  rewrite sep_free_prefix by exact Hsep.
  rewrite split_sep_sep_free by exact Hsep. simpl.
  rewrite decide_False by (intros [?|?]; congruence).
  rewrite decide_False by exact H2.
  destruct (fs !! name); reflexivity.
Qed.

Lemma exists_name_Some (fs : gmap string node) (name : string) :
  ordinary name = true →
  os_path_exists exists_outside fs name = true → is_Some (fs !! name).
Proof.
  intros Hord. rewrite exists_name by exact Hord.
  destruct (fs !! name); [eauto|discriminate].
Qed.

Lemma get_path_ok (base : string) (i : nat) :
  brace_free base = true → get_path str_format base i = Ok (backup_name base i).
Proof. intros H. unfold get_path. rewrite H. reflexivity. Qed.

(** The suffixes below [e] that exist are as many entries of the
    directory. *)
Lemma occupied_le_size (fs : gmap string node) (base : string) (e : nat) :
  sep_free base = true →
  (∀ i, 1 <= i < e →
     os_path_exists exists_outside fs (backup_name base i) = true) →
  e - 1 <= size fs.
Proof.
  intros Hsep Hocc.
  set (names := backup_name base <$> seq 1 (e - 1)).
  assert (Hnd : NoDup names).
  { apply NoDup_fmap_2; [|apply NoDup_seq].
    intros i j. apply backup_name_inj. }
  assert (Hsub : (list_to_set names : gset string) ⊆ dom fs).
  { intros x Hx. apply elem_of_list_to_set in Hx.
    apply list_elem_of_fmap in Hx as (i & -> & Hi).
    apply elem_of_seq in Hi. apply elem_of_dom.
    apply exists_name_Some; [apply ordinary_backup_name, Hsep|].
    apply Hocc. lia. }
  apply subseteq_size in Hsub.
  rewrite size_list_to_set in Hsub by exact Hnd.
  rewrite size_dom in Hsub. unfold names in Hsub.
  rewrite length_fmap, length_seq in Hsub. exact Hsub.
Qed.

(** The search loop stops at the first suffix that does not exist, given
    fuel for one test more than the directory has entries. *)
Lemma find_end_spec (fs : gmap string node) (base : string) (fuel e : nat) :
  sep_free base = true → brace_free base = true →
  1 <= e →
  (∀ i, 1 <= i < e →
     os_path_exists exists_outside fs (backup_name base i) = true) →
  size fs + 1 < fuel + e →
  ∃ k, find_end exists_outside str_format fuel fs base e = Some (Ok (k + 1))
       ∧ e <= k ∧ first_free exists_outside fs base k.
Proof.
  intros Hsep Hbf. revert e.
  induction fuel as [|fuel IH]; intros e He Hocc Hfuel.
  - pose proof (occupied_le_size fs base e Hsep Hocc). lia.
  - simpl. rewrite get_path_ok by exact Hbf.
    destruct (os_path_exists exists_outside fs (backup_name base e)) eqn:Ex;
      simpl.
    + destruct (IH (e + 1)) as (k & Hk & Hle & Hff); [lia| |lia|].
      { intros i Hi. destruct (decide (i = e)) as [->|]; [exact Ex|].
        apply Hocc. lia. }
      exists k. split; [exact Hk|]. split; [lia|exact Hff].
    + exists e. split; [reflexivity|]. split; [lia|].
      split; [exact He|]. split; [exact Ex|exact Hocc].
Qed.

Lemma first_free_unique (fs : gmap string node) (base : string) (k k' : nat) :
  first_free exists_outside fs base k → first_free exists_outside fs base k' →
  k = k'.
Proof.
  intros (H1 & Hf & Ho) (H1' & Hf' & Ho').
  destruct (decide (k < k')) as [Hlt|].
  - specialize (Ho' k ltac:(lia)). congruence.
  - destruct (decide (k' < k)) as [Hlt'|]; [|lia].
    specialize (Ho k' ltac:(lia)). congruence.
Qed.

(** The first suffix that does not exist, in terms of the entries of the
    directory: the names of the lower suffixes are taken by entries that
    are not links that dangle, and its own name is free or taken by a link
    that dangles. *)
Lemma first_free_entries (fs : gmap string node) (base : string) (k : nat) :
  sep_free base = true → first_free exists_outside fs base k →
  (∀ i, 1 <= i < k →
     ∃ m, fs !! backup_name base i = Some m ∧ is_Some (follow m))
  ∧ (∀ m, fs !! backup_name base k = Some m → follow m = None).
Proof.
  intros Hsep (_ & Hfree & Hocc). split.
  - intros i Hi. specialize (Hocc i Hi).
    rewrite exists_name in Hocc by (apply ordinary_backup_name, Hsep).
    destruct (fs !! backup_name base i) as [m|]; [|discriminate].
    exists m. split; [reflexivity|]. apply bool_decide_eq_true in Hocc.
    exact Hocc.
  - intros m Hm.
    rewrite exists_name, Hm in Hfree by (apply ordinary_backup_name, Hsep).
    apply bool_decide_eq_false in Hfree.
    destruct (follow m); [destruct Hfree; eauto|reflexivity].
Qed.

(** Renaming an entry to a name that is free moves it. *)
Lemma os_rename_move (fs : gmap string node) (src dst : string) (n : node) :
  special src = false → special dst = false → src ≠ dst →
  fs !! src = Some n → fs !! dst = None →
  os_rename fs src dst = (Ok tt, <[dst := n]> (delete src fs)).
Proof.
  intros Hs Hd Hne Hn Hfree. unfold os_rename.
  rewrite decide_False.
  2:{ unfold special in Hs, Hd. apply bool_decide_eq_false in Hs, Hd.
      intros [->| ->]; [apply Hs|apply Hd]; auto. }
  rewrite Hs, Hd. simpl. rewrite Hn.
  rewrite decide_False by exact Hne. rewrite Hfree. reflexivity.
Qed.

Lemma range_down_S (k : nat) : 1 <= k → range_down (S k) 1 = S k :: range_down k 1.
Proof.
  intros Hk. unfold range_down.
  replace (S k - 1) with (S (k - 1)) by lia.
  rewrite seq_S, rev_app_distr. simpl. f_equal. lia.
Qed.

(** The shifting loop, entered when the suffixes below [k] are taken and
    [k] is free: every backup moves up by one and suffix 1 becomes free. *)
Lemma shift_loop_spec (base : string) (k : nat) :
  brace_free base = true →
  ∀ fs : gmap string node,
  1 <= k →
  (∀ i, 1 <= i < k → is_Some (fs !! backup_name base i)) →
  fs !! backup_name base k = None →
  ∃ fs1, shift_backups str_format fs base (k + 1) = (Ok tt, fs1)
         ∧ fs1 !! backup_name base 1 = None
         ∧ (∀ i, 1 <= i < k →
              fs1 !! backup_name base (S i) = fs !! backup_name base i)
         ∧ (∀ name, (∀ i, 1 <= i <= k → name ≠ backup_name base i) →
                    fs1 !! name = fs !! name).
Proof.
  intros Hbf.
  unfold shift_backups. replace (k + 1 - 1) with k by lia.
  induction k as [|k IH]; intros fs Hk Hocc Hfree; [lia|].
  destruct (decide (k = 0)) as [->|Hk0].
  - exists fs. simpl. split; [reflexivity|]. split; [exact Hfree|].
    split; [intros i Hi; lia|]. reflexivity.
  - rewrite range_down_S by lia. simpl.
    replace (k - 0) with k by lia.
    destruct (Hocc k) as [n Hn]; [lia|].
    unfold shift_backup at 2. replace (S k - 1) with k by lia.
    rewrite !get_path_ok by exact Hbf.
    rewrite (os_rename_move fs _ _ n);
      [|apply special_backup_name|apply special_backup_name
       |intros E; apply backup_name_inj in E; lia|exact Hn|exact Hfree].
    set (fs0 := <[backup_name base (S k) := n]> (delete (backup_name base k) fs)).
    assert (Hother : ∀ name, name ≠ backup_name base k →
                             name ≠ backup_name base (S k) →
                             fs0 !! name = fs !! name).
    { intros name H1 H2. unfold fs0.
      rewrite lookup_insert_ne by congruence.
      rewrite lookup_delete_ne by congruence. reflexivity. }
    destruct (IH fs0) as (fs1 & Hrun & H1 & Hshift & Hrest); [lia| | |].
    { intros i Hi. rewrite Hother; [apply Hocc; lia| |];
        intros E; apply backup_name_inj in E; lia. }
    { unfold fs0. rewrite lookup_insert_ne
        by (intros E; apply backup_name_inj in E; lia).
      apply lookup_delete_eq. }
    exists fs1. split; [exact Hrun|]. split; [exact H1|]. split.
    + intros i Hi. destruct (decide (i = k)) as [->|Hne].
      * rewrite Hrest.
        -- unfold fs0. rewrite lookup_insert_eq. symmetry. exact Hn.
        -- intros j Hj E. apply backup_name_inj in E. lia.
      * rewrite Hshift by lia. apply Hother;
          intros E; apply backup_name_inj in E; lia.
    + intros name Hname. rewrite Hrest.
      * apply Hother; apply Hname; lia.
      * intros i Hi. apply Hname. lia.
Qed.

(** The rotation of an existing path whose first component is an entry of
    the working directory, when the first suffix [k] that does not exist
    is not the name of a link that dangles: what is moved, and what
    stays. *)
Lemma rename_existing_at (fs : gmap string node) (filepath base : string)
    (n : node) (k : nat) :
  os_path_exists exists_outside fs filepath = true →
  first_component filepath = base →
  special base = false → brace_free base = true →
  fs !! base = Some n →
  first_free exists_outside fs base k → fs !! backup_name base k = None →
  ∃ fs',
    (∀ fuel, size fs < fuel →
       find_end exists_outside str_format fuel fs base 1 = Some (Ok (k + 1))
       ∧ rename_existing exists_outside str_format fuel fs filepath
         = Some (Ok tt, fs'))
    ∧ fs' !! base = None
    ∧ fs' !! backup_name base 1 = Some n
    ∧ (∀ i, 1 <= i < k →
         fs' !! backup_name base (S i) = fs !! backup_name base i)
    ∧ (∀ name, name ≠ base →
         (∀ i, 1 <= i <= k → name ≠ backup_name base i) →
         fs' !! name = fs !! name).
Proof.
  intros Hex Hbase Hsp Hbf Hn Hff Hfree.
  assert (Hsep : sep_free base = true)
    by (rewrite <- Hbase; apply first_component_sep_free).
  assert (Hk1 : 1 <= k) by apply Hff.
  assert (Hocc : ∀ i, 1 <= i < k → is_Some (fs !! backup_name base i)).
  { intros i Hi. apply exists_name_Some; [apply ordinary_backup_name, Hsep|].
    apply Hff. exact Hi. }
  destruct (shift_loop_spec base k Hbf fs Hk1 Hocc Hfree)
    as (fs1 & Hshift & H1 & Hmoved & Hrest).
  assert (Hbase1 : fs1 !! base = Some n).
  { rewrite Hrest; [exact Hn|]. intros i _. apply not_eq_sym, backup_name_ne_base. }
  exists (<[backup_name base 1 := n]> (delete base fs1)).
  split.
  { intros fuel Hfuel.
    destruct (find_end_spec fs base fuel 1) as (k' & Hfind' & Hk1' & Hff');
      [exact Hsep|exact Hbf|lia|intros i Hi; lia|lia|].
    assert (k' = k) as -> by exact (first_free_unique fs base _ _ Hff' Hff).
    split; [exact Hfind'|].
    unfold rename_existing. rewrite Hex, Hbase, Hfind', Hshift.
    rewrite get_path_ok by exact Hbf.
    rewrite (os_rename_move fs1 _ _ n);
      [reflexivity|exact Hsp|apply special_backup_name
      |apply not_eq_sym, backup_name_ne_base|exact Hbase1|exact H1]. }
  split.
  { rewrite lookup_insert_ne by apply backup_name_ne_base. apply lookup_delete_eq. }
  split.
  { apply lookup_insert_eq. }
  split.
  { intros i Hi.
    rewrite lookup_insert_ne by (intros E; apply backup_name_inj in E; lia).
    rewrite lookup_delete_ne by (apply not_eq_sym, backup_name_ne_base).
    apply Hmoved. exact Hi. }
  intros name Hb Hname.
  rewrite lookup_insert_ne by (apply not_eq_sym, Hname; lia).
  rewrite lookup_delete_ne by congruence.
  apply Hrest. exact Hname.
Qed.

(** The search of an existing path whose first component has no braces. *)
Lemma rename_existing_search (fs : gmap string node) (filepath : string) :
  brace_free (first_component filepath) = true →
  ∃ k, first_free exists_outside fs (first_component filepath) k
       ∧ k <= S (size fs)
       ∧ ∀ fuel, size fs < fuel →
           find_end exists_outside str_format fuel fs
             (first_component filepath) 1 = Some (Ok (k + 1)).
Proof.
  intros Hbf. set (base := first_component filepath) in *.
  assert (Hsep : sep_free base = true) by apply first_component_sep_free.
  destruct (find_end_spec fs base (S (size fs)) 1) as (k & Hfind & Hk1 & Hff);
    [exact Hsep|exact Hbf|lia|intros i Hi; lia|lia|].
  exists k. split; [exact Hff|]. split.
  { destruct Hff as (_ & _ & Hocc).
    pose proof (occupied_le_size fs base k Hsep Hocc). lia. }
  intros fuel Hfuel.
  destruct (find_end_spec fs base fuel 1) as (k' & Hfind' & Hk1' & Hff');
    [exact Hsep|exact Hbf|lia|intros i Hi; lia|lia|].
  rewrite (first_free_unique fs base _ _ Hff Hff'). exact Hfind'.
Qed.

(** Every entry of the directory is found again after the rotation. *)
Lemma rotation_keeps (fs fs' : gmap string node) (base : string) (k : nat)
    (n : node) :
  fs !! base = Some n →
  fs !! backup_name base k = None →
  fs' !! backup_name base 1 = Some n →
  (∀ i, 1 <= i < k → fs' !! backup_name base (S i) = fs !! backup_name base i) →
  (∀ name, name ≠ base → (∀ i, 1 <= i <= k → name ≠ backup_name base i) →
           fs' !! name = fs !! name) →
  ∀ name m, fs !! name = Some m → ∃ name', fs' !! name' = Some m.
Proof.
  intros Hn Hfree Hbase Hmoved Hrest name m Hm.
  destruct (decide (name = base)) as [->|Hb].
  { exists (backup_name base 1). congruence. }
  destruct (decide (name ∈ backup_name base <$> seq 1 k)) as [Hin|Hnin].
  - apply list_elem_of_fmap in Hin as (i & -> & Hi). apply elem_of_seq in Hi.
    destruct (decide (i = k)) as [->|Hne]; [congruence|].
    exists (backup_name base (S i)). rewrite Hmoved by lia. exact Hm.
  - exists name. rewrite Hrest; [exact Hm|exact Hb|].
    intros i Hi ->. apply Hnin, list_elem_of_fmap.
    exists i. split; [reflexivity|]. apply elem_of_seq. lia.
Qed.


Lemma normpath_name (name : string) :
  ordinary name = true → normpath name = name.
Proof.
  intros Hord. apply ordinary_inv in Hord as (Hsep & H0 & H1 & H2).
  unfold normpath.
  rewrite decide_False by exact H0.
  rewrite sep_free_prefix by exact Hsep.
  rewrite (split_sep_sep_free name Hsep).
  change (foldl (normpath_step 0) [] [name]) with (normpath_step 0 [] name).
  unfold normpath_step.
  destruct (decide (name = "" ∨ name = ".")) as [[?|?]|_];
    [congruence|congruence|].
  destruct (decide (name ≠ ".." ∨ _)) as [_|Hn]; [|destruct Hn; left; exact H2].
  change (String.concat "" (replicate 0 "/") +:+ join_sep ([] ++ [name]))
    with name.
  rewrite decide_False by exact H0. reflexivity.
Qed.

(** The first component of a name of the working directory is the name. *)
Lemma first_component_name (name : string) :
  ordinary name = true → first_component name = name.
Proof.
  intros Hord. unfold first_component.
  rewrite (normpath_name name Hord).
  apply ordinary_inv in Hord as (Hsep & _).
  rewrite (split_sep_sep_free name Hsep). reflexivity.
Qed.

Lemma write_file_new (fs : gmap string node) (name content : string) :
  ordinary name = true → fs !! name = None →
  write_file open_outside fs name content
  = (Ok tt, <[name := File content]> fs).
Proof.
  intros Hord Hfree. unfold write_file.
  rewrite (ordinary_special _ Hord).
  apply ordinary_inv in Hord as (Hsep & H0 & _).
  rewrite decide_False by exact H0. rewrite Hsep, Hfree. reflexivity.
Qed.


Lemma with_backups_base (base : string) (n : nat) :
  with_backups base n !! base = Some (File "current").
Proof.
  unfold with_backups. induction (seq 1 n) as [|i l IH]; simpl.
  - apply lookup_singleton_eq.
  - rewrite lookup_insert_ne by apply backup_name_ne_base. exact IH.
Qed.

Lemma foldr_backups_lookup (base : string) (l : list nat) (i : nat) :
  foldr (fun i m => <[backup_name base i := File (pretty i)]> m)
        ({[ base := File "current" ]} : gmap string node) l
    !! backup_name base i
  = if decide (i ∈ l) then Some (File (pretty i)) else None.
Proof.
  induction l as [|j l IH]; simpl.
  - destruct (decide (i ∈ [])) as [H|_]; [inversion H|].
    apply lookup_singleton_ne, not_eq_sym, backup_name_ne_base.
  - destruct (decide (j = i)) as [->|Hne].
    + rewrite lookup_insert_eq.
      destruct (decide (i ∈ i :: l)) as [_|H]; [reflexivity|].
      destruct H. left.
    + rewrite lookup_insert_ne
        by (intros E; apply backup_name_inj in E; congruence).
      rewrite IH.
      destruct (decide (i ∈ l)) as [Hl|Hl];
        destruct (decide (i ∈ j :: l)) as [Hjl|Hjl]; try reflexivity.
      * destruct Hjl. right. exact Hl.
      * apply elem_of_cons in Hjl as [->|Hjl]; contradiction.
Qed.

Lemma with_backups_lookup (base : string) (n i : nat) :
  with_backups base n !! backup_name base i
  = if decide (1 <= i <= n) then Some (File (pretty i)) else None.
Proof.
  unfold with_backups. rewrite foldr_backups_lookup.
  destruct (decide (i ∈ seq 1 n)) as [H|H];
    destruct (decide (1 <= i <= n)) as [Hi|Hi]; try reflexivity.
  - apply elem_of_seq in H. lia.
  - destruct H. apply elem_of_seq. lia.
Qed.

(** The rotation of the directory that holds the backups 1 to [N]. *)
Lemma with_backups_rotates (N : nat) :
  ∃ fs',
    (∀ i, 1 <= i <= N →
       os_path_exists exists_outside (with_backups "report.md" N)
         (backup_name "report.md" i) = true)
    ∧ first_free exists_outside (with_backups "report.md" N) "report.md" (S N)
    ∧ ∀ fuel, size (with_backups "report.md" N) < fuel →
        rename_existing exists_outside str_format fuel
          (with_backups "report.md" N) "report.md" = Some (Ok tt, fs').
Proof.
  set (fs := with_backups "report.md" N).
  assert (Hbk : ∀ i, ordinary (backup_name "report.md" i) = true)
    by (intros i; apply ordinary_backup_name; reflexivity).
  assert (Hocc : ∀ i, 1 <= i <= N →
            os_path_exists exists_outside fs (backup_name "report.md" i) = true).
  { intros i Hi. rewrite exists_name by apply Hbk. unfold fs.
    rewrite with_backups_lookup, decide_True by exact Hi. reflexivity. }
  assert (Hfree : fs !! backup_name "report.md" (S N) = None).
  { unfold fs. rewrite with_backups_lookup, decide_False by lia. reflexivity. }
  assert (Hff : first_free exists_outside fs "report.md" (S N)).
  { split; [lia|]. split.
    - rewrite exists_name, Hfree by apply Hbk. reflexivity.
    - intros i Hi. apply Hocc. lia. }
  assert (Hex : os_path_exists exists_outside fs "report.md" = true).
  { rewrite exists_name by reflexivity. unfold fs.
    rewrite with_backups_base. reflexivity. }
  destruct (rename_existing_at fs "report.md" "report.md" (File "current") (S N)
              Hex eq_refl eq_refl eq_refl (with_backups_base _ _) Hff Hfree)
    as (fs' & Hrun & _).
  exists fs'. split; [exact Hocc|]. split; [exact Hff|].
  intros fuel Hfuel. apply (Hrun fuel Hfuel).
Qed.

End RotationFacts.


Lemma gap_dir_first_free : first_free nothing_outside gap_dir "report.md" 2.
Proof.
  split; [lia|]. split; [reflexivity|].
  intros i Hi. assert (i = 1) as -> by lia. reflexivity.
Qed.



(** C7, as amended: the search for a free numbered suffix has no bound and
    no error of its own.  For a path that exists and whose first component
    has no braces it tests the suffixes 1, 2, 3 and so on and stops at the
    first one that does not exist (the lower ones are names of entries, this
    one is free or the name of a link that dangles), which is at most one
    more than the number of entries of the working directory, and the call
    returns; it returns with the rotation done when that component is an
    entry of the working directory and the suffix found is free.  However
    many backups there are, a directory that holds them all is rotated
    too. *)
Theorem rename_existing_search_unbounded
    (exists_outside : gmap string node → string → bool)
    (str_format : string → nat → result string) :
  (∀ (fs : gmap string node) (filepath : string),
     os_path_exists exists_outside fs filepath = true →
     brace_free (first_component filepath) = true →
     ∃ k,
       first_free exists_outside fs (first_component filepath) k
       ∧ (∀ i, 1 <= i < k →
            ∃ m, fs !! backup_name (first_component filepath) i = Some m
                 ∧ is_Some (follow m))
       ∧ (∀ m, fs !! backup_name (first_component filepath) k = Some m →
               follow m = None)
       ∧ k <= S (size fs)
       ∧ (∀ fuel, size fs < fuel →
            find_end exists_outside str_format fuel fs
              (first_component filepath) 1 = Some (Ok (k + 1))
            ∧ ∃ outcome,
                rename_existing exists_outside str_format fuel fs filepath
                = Some outcome)
       ∧ (special (first_component filepath) = false →
          is_Some (fs !! first_component filepath) →
          fs !! backup_name (first_component filepath) k = None →
          ∃ fs', ∀ fuel, size fs < fuel →
            rename_existing exists_outside str_format fuel fs filepath
            = Some (Ok tt, fs')))
  ∧ (∀ N, ∃ (fs : gmap string node) k fs',
       (∀ i, 1 <= i <= N →
          is_Some (fs !! backup_name "report.md" i)
          ∧ os_path_exists exists_outside fs (backup_name "report.md" i)
            = true)
       ∧ first_free exists_outside fs "report.md" k ∧ N < k
       ∧ ∀ fuel, size fs < fuel →
           rename_existing exists_outside str_format fuel fs "report.md"
           = Some (Ok tt, fs')).
Proof.
  split.
  - intros fs filepath Hex Hbf.
    destruct (rename_existing_search exists_outside str_format fs filepath Hbf)
      as (k & Hff & Hk & Hfind).
    destruct (first_free_entries exists_outside fs _ k
                (first_component_sep_free filepath) Hff) as [Hlow Hat].
    exists k. split; [exact Hff|]. split; [exact Hlow|]. split; [exact Hat|].
    split; [exact Hk|]. split.
    + intros fuel Hfuel. split; [exact (Hfind fuel Hfuel)|].
      unfold rename_existing. rewrite Hex, (Hfind fuel Hfuel).
      destruct (shift_backups _ _ _ _) as [[[]|e] fs1]; [|eauto].
      destruct (get_path _ _ _); eauto.
    + intros Hsp [n Hn] Hfree.
      destruct (rename_existing_at exists_outside str_format fs filepath _ n k
                  Hex eq_refl Hsp Hbf Hn Hff Hfree) as (fs' & Hrun & _).
      exists fs'. intros fuel Hfuel. apply (Hrun fuel Hfuel).
  - intros N.
    destruct (with_backups_rotates exists_outside str_format N)
      as (fs' & Hocc & Hff & Hrun).
    exists (with_backups "report.md" N), (S N), fs'.
    split.
    { intros i Hi. split; [|exact (Hocc i Hi)].
      rewrite with_backups_lookup, decide_True by exact Hi. eauto. }
    split; [exact Hff|]. split; [lia|exact Hrun].
Qed.

Lemma rename_existing_search_unbounded_witness :
  ∃ k fs', first_free nothing_outside gap_dir "report.md" k
           ∧ find_end nothing_outside no_format 4 gap_dir "report.md" 1
             = Some (Ok (k + 1))
           ∧ rename_existing nothing_outside no_format 4 gap_dir "report.md"
             = Some (Ok tt, fs').
Proof.
  destruct (proj1 (rename_existing_search_unbounded nothing_outside no_format)
              gap_dir "report.md" eq_refl eq_refl)
    as (k & Hff & _ & _ & _ & Hfind & Hrun).
  assert (k = 2) as ->
    by exact (first_free_unique _ _ _ _ _ Hff gap_dir_first_free).
  destruct (Hrun eq_refl ltac:(vm_compute; eauto) eq_refl) as [fs' Hfs'].
  exists 2, fs'. split; [exact Hff|].
  split; [apply Hfind; vm_compute; lia|apply Hfs'; vm_compute; lia].
Defined.

(** No bound makes the search give up: whatever [N] is, the directory that
    holds the backups 1 to [N] is rotated. *)
Lemma rename_existing_bound_counterexample :
  ¬ ∃ N, bounded_search nothing_outside no_format N.
Proof.
  intros [N Hbound].
  destruct (with_backups_rotates nothing_outside no_format N)
    as (fs' & Hocc & Hff & Hrun).
  assert (Hex : os_path_exists nothing_outside (with_backups "report.md" N)
                  "report.md" = true).
  { rewrite exists_name by reflexivity.
    rewrite with_backups_base. reflexivity. }
  apply (Hbound _ _ Hex Hocc (S (size (with_backups "report.md" N))) fs').
  apply Hrun. lia.
Qed.

(** * Further properties *)

(** ** The order of binary64 numbers *)

Ltac sf_cases :=
  repeat match goal with
  | |- context [Z.compare ?x ?y] => destruct (Z.compare_spec x y)
  | |- context [PosDef.Pos.compare_cont Eq ?x ?y] =>
      change (PosDef.Pos.compare_cont Eq x y) with (Pos.compare x y);
      destruct (Pos.compare_spec x y)
  end; simpl; intros; subst; try discriminate; try reflexivity; try lia.

Ltac sf_destruct a :=
  let s := fresh "s" in destruct a as [s|s| |s ? ?]; try destruct s.

Lemma SFleb_ltb_trans a b c :
  SFleb a b = true → SFltb b c = true → SFltb a c = true.
Proof.
  unfold SFleb, SFltb, SFcompare.
  sf_destruct a; sf_destruct b; sf_destruct c; simpl;
    try discriminate; try reflexivity; sf_cases.
Qed.

Lemma SFltb_leb_trans a b c :
  SFltb a b = true → SFleb b c = true → SFltb a c = true.
Proof.
  unfold SFleb, SFltb, SFcompare.
  sf_destruct a; sf_destruct b; sf_destruct c; simpl;
    try discriminate; try reflexivity; sf_cases.
Qed.

Lemma SFleb_trans a b c :
  SFleb a b = true → SFleb b c = true → SFleb a c = true.
Proof.
  unfold SFleb, SFcompare.
  sf_destruct a; sf_destruct b; sf_destruct c; simpl;
    try discriminate; try reflexivity; sf_cases.
Qed.

Lemma SFleb_total a b :
  a ≠ S754_nan → b ≠ S754_nan → SFleb b a = false → SFleb a b = true.
Proof.
  unfold SFleb, SFcompare.
  sf_destruct a; sf_destruct b; simpl; intros Ha Hb;
    try congruence; try discriminate; try reflexivity; sf_cases.
Qed.

Lemma SFleb_refl a : a ≠ S754_nan → SFleb a a = true.
Proof.
  unfold SFleb, SFcompare.
  sf_destruct a; simpl; intros Ha; try congruence; try reflexivity; sf_cases.
Qed.

Lemma is_nan_spec (x : float) :
  PrimFloat.is_nan x = true ↔ Prim2SF x = S754_nan.
Proof.
  unfold PrimFloat.is_nan. rewrite FloatAxioms.eqb_spec. unfold SFeqb, SFcompare.
  sf_destruct (Prim2SF x); simpl; split; intros H;
    try discriminate; try reflexivity; revert H; sf_cases.
Qed.

Lemma not_nan_spec (x : float) :
  PrimFloat.is_nan x = false ↔ Prim2SF x ≠ S754_nan.
Proof.
  rewrite <- is_nan_spec. destruct (PrimFloat.is_nan x); split; congruence.
Qed.

Lemma leb_ltb_trans (x y z : float) :
  PrimFloat.leb x y = true → PrimFloat.ltb y z = true → PrimFloat.ltb x z = true.
Proof. rewrite FloatAxioms.leb_spec, !FloatAxioms.ltb_spec. apply SFleb_ltb_trans. Qed.

Lemma ltb_leb_trans (x y z : float) :
  PrimFloat.ltb x y = true → PrimFloat.leb y z = true → PrimFloat.ltb x z = true.
Proof. rewrite FloatAxioms.leb_spec, !FloatAxioms.ltb_spec. apply SFltb_leb_trans. Qed.

Lemma leb_trans (x y z : float) :
  PrimFloat.leb x y = true → PrimFloat.leb y z = true → PrimFloat.leb x z = true.
Proof. rewrite !FloatAxioms.leb_spec. apply SFleb_trans. Qed.

Lemma leb_total (x y : float) :
  PrimFloat.is_nan x = false → PrimFloat.is_nan y = false →
  PrimFloat.leb y x = false → PrimFloat.leb x y = true.
Proof. rewrite !not_nan_spec, !FloatAxioms.leb_spec. apply SFleb_total. Qed.

Lemma leb_refl (x : float) :
  PrimFloat.is_nan x = false → PrimFloat.leb x x = true.
Proof. rewrite not_nan_spec, FloatAxioms.leb_spec. apply SFleb_refl. Qed.

Lemma ltb_nan_l (x y : float) :
  PrimFloat.is_nan x = true → PrimFloat.ltb x y = false.
Proof. rewrite is_nan_spec, FloatAxioms.ltb_spec. intros ->. reflexivity. Qed.

Lemma leb_nan_l (x y : float) :
  PrimFloat.is_nan x = true → PrimFloat.leb x y = false.
Proof. rewrite is_nan_spec, FloatAxioms.leb_spec. intros ->. reflexivity. Qed.

Lemma is_nan_abs (x : float) :
  PrimFloat.is_nan (PrimFloat.abs x) = PrimFloat.is_nan x.
Proof.
  destruct (PrimFloat.is_nan x) eqn:E.
  - apply is_nan_spec. apply is_nan_spec in E. rewrite FloatAxioms.abs_spec, E. reflexivity.
  - apply not_nan_spec. apply not_nan_spec in E. rewrite FloatAxioms.abs_spec.
    destruct (Prim2SF x); simpl; congruence.
Qed.

Lemma is_nan_sub (x y : float) :
  PrimFloat.is_nan x = true ∨ PrimFloat.is_nan y = true →
  PrimFloat.is_nan (PrimFloat.sub x y) = true.
Proof.
  rewrite !is_nan_spec, FloatAxioms.sub_spec. unfold SF64sub, SFsub.
  intros [-> | ->]; [reflexivity|]. destruct (Prim2SF x); reflexivity.
Qed.

(** ** The largest entry *)

Lemma maximum_cases (a b : float) : maximum a b = a ∨ maximum a b = b.
Proof. unfold maximum. destruct (_ || _); auto. Qed.

Lemma maximum_nan (a b : float) :
  PrimFloat.is_nan a = true ∨ PrimFloat.is_nan b = true →
  PrimFloat.is_nan (maximum a b) = true.
Proof.
  unfold maximum. intros [Ha|Hb].
  - rewrite Ha, orb_true_r. exact Ha.
  - rewrite (leb_nan_l b a Hb). simpl.
    destruct (PrimFloat.is_nan a) eqn:Ea; assumption.
Qed.

Lemma maximum_upper (a b : float) :
  PrimFloat.is_nan (maximum a b) = false →
  PrimFloat.is_nan a = false ∧ PrimFloat.is_nan b = false
  ∧ PrimFloat.leb a (maximum a b) = true
  ∧ PrimFloat.leb b (maximum a b) = true.
Proof.
  intros Hm.
  destruct (PrimFloat.is_nan a) eqn:Ea.
  { rewrite maximum_nan in Hm by auto. discriminate. }
  destruct (PrimFloat.is_nan b) eqn:Eb.
  { rewrite maximum_nan in Hm by auto. discriminate. }
  split; [reflexivity|]. split; [reflexivity|].
  unfold maximum. rewrite Ea, orb_false_r.
  destruct (PrimFloat.leb b a) eqn:Eba.
  - split; [apply leb_refl; exact Ea|exact Eba].
  - split; [apply leb_total; assumption|apply leb_refl; exact Eb].
Qed.

Lemma foldl_maximum_in (l : list float) (a : float) :
  foldl maximum a l ∈ a :: l.
Proof.
  revert a. induction l as [|x l IH]; intros a; simpl; [left|].
  specialize (IH (maximum a x)).
  apply elem_of_cons in IH as [->|IH].
  - destruct (maximum_cases a x) as [->| ->].
    + left.
    + right. left.
  - right. right. exact IH.
Qed.

Lemma foldl_maximum_nan (l : list float) (a : float) :
  PrimFloat.is_nan a = true ∨ (∃ x, x ∈ l ∧ PrimFloat.is_nan x = true) →
  PrimFloat.is_nan (foldl maximum a l) = true.
Proof.
  revert a. induction l as [|y l IH]; intros a H; simpl.
  - destruct H as [H|(x & Hx & _)]; [exact H|inversion Hx].
  - apply IH. destruct H as [H|(x & Hx & Hn)].
    + left. apply maximum_nan. auto.
    + apply elem_of_cons in Hx as [->|Hx].
      * left. apply maximum_nan. auto.
      * right. eauto.
Qed.

Lemma foldl_maximum_upper (l : list float) (a : float) :
  PrimFloat.is_nan (foldl maximum a l) = false →
  ∀ x, x ∈ a :: l → PrimFloat.leb x (foldl maximum a l) = true.
Proof.
  revert a. induction l as [|y l IH]; intros a Hm x Hx; simpl in *.
  - apply list_elem_of_singleton in Hx as ->. apply leb_refl. exact Hm.
  - assert (Hmax : PrimFloat.is_nan (maximum a y) = false).
    { destruct (PrimFloat.is_nan (maximum a y)) eqn:E; [|reflexivity].
      rewrite foldl_maximum_nan in Hm by auto. discriminate. }
    destruct (maximum_upper a y Hmax) as (_ & _ & Ha & Hy).
    pose proof (IH (maximum a y) Hm (maximum a y) ltac:(left)) as Htop.
    apply elem_of_cons in Hx as [->|Hx].
    + exact (leb_trans _ _ _ Ha Htop).
    + apply elem_of_cons in Hx as [->|Hx].
      * exact (leb_trans _ _ _ Hy Htop).
      * apply (IH (maximum a y) Hm). right. exact Hx.
Qed.

(** [max_of] returns an entry that is below the bound exactly when all
    entries are. *)
Lemma max_of_below (xs : list float) (bound : float) :
  xs ≠ [] →
  ∃ m, max_of xs = Ok m
       ∧ (PrimFloat.ltb m bound = true
          ↔ ∀ x, x ∈ xs → PrimFloat.ltb x bound = true).
Proof.
  destruct xs as [|a l]; [congruence|]. intros _.
  exists (foldl maximum a l). split; [reflexivity|]. split.
  - intros Hm x Hx.
    assert (Hn : PrimFloat.is_nan (foldl maximum a l) = false).
    { destruct (PrimFloat.is_nan (foldl maximum a l)) eqn:E; [|reflexivity].
      rewrite ltb_nan_l in Hm by exact E. discriminate. }
    exact (leb_ltb_trans _ _ _ (foldl_maximum_upper l a Hn x Hx) Hm).
  - intros Hall. apply Hall, foldl_maximum_in.
Qed.

Lemma elem_of_ravel (a : ndarray2) (x : float) :
  x ∈ ravel a ↔ ∃ i j, i < dim0 a ∧ j < dim1 a ∧ x = at2 a i j.
Proof.
  unfold ravel. rewrite list_elem_of_bind. split.
  - intros (i & Hx & Hi). apply list_elem_of_fmap in Hx as (j & -> & Hj).
    apply elem_of_seq in Hi, Hj. exists i, j. repeat split; lia.
  - intros (i & j & Hi & Hj & ->). exists i. split.
    + apply list_elem_of_fmap. exists j. split; [reflexivity|].
      apply elem_of_seq. lia.
    + apply elem_of_seq. lia.
Qed.

Lemma ravel_nonempty (a : ndarray2) :
  0 < dim0 a → 0 < dim1 a → ravel a ≠ [].
Proof.
  intros H0 H1 E. apply (f_equal length) in E.
  rewrite length_ravel in E. simpl in E. nia.
Qed.

(** ** Convergence checker, continued *)

Lemma is_converged_two (es : list float) (g : pyval) (etol gtol e1 e0 : float) :
  2 <= length es →
  index_neg es 1 = Ok e1 → index_neg es 2 = Ok e0 →
  _is_converged es g etol gtol
  = if PrimFloat.ltb (PrimFloat.abs (PrimFloat.sub e1 e0)) etol
    then (m <- abs_max g ;; Ok (PrimFloat.ltb m gtol))%py
    else Ok false.
Proof.
  intros Hlen H1 H0. destruct (two_last es Hlen) as (pre & x0 & x1 & ->).
  rewrite index_neg_snoc1 in H1. rewrite index_neg_snoc2 in H0.
  injection H1 as <-. injection H0 as <-. apply is_converged_snoc.
Qed.

(** The largest absolute entry of a gradient array with at least one entry
    is below a bound exactly when the absolute value of every entry is. *)
Lemma abs_max_matrix_below (a : ndarray2) (gtol : float) :
  0 < dim0 a → 0 < dim1 a →
  ∃ m, abs_max (PyMatrix a) = Ok m
       ∧ (PrimFloat.ltb m gtol = true
          ↔ ∀ i j, i < dim0 a → j < dim1 a →
              PrimFloat.ltb (PrimFloat.abs (at2 a i j)) gtol = true).
Proof.
  intros Hd0 Hd1.
  assert (Hne : PrimFloat.abs <$> ravel a ≠ []).
  { intros E. apply fmap_nil_inv in E. exact (ravel_nonempty a Hd0 Hd1 E). }
  destruct (max_of_below _ gtol Hne) as (m & Hm & Hiff).
  exists m. split; [exact Hm|]. rewrite Hiff. split.
  - intros H i j Hi Hj. apply H, list_elem_of_fmap.
    exists (at2 a i j). split; [reflexivity|].
    apply elem_of_ravel. eauto.
  - intros H x Hx. apply list_elem_of_fmap in Hx as (y & -> & Hy).
    apply elem_of_ravel in Hy as (i & j & Hi & Hj & ->). auto.
Qed.

(** C1: with fewer than two energies [_is_converged] returns [False]
    whatever the gradient is.  With at least two energies, the last two
    being [e_prev] and [e_last], and a gradient array [a] with at least one
    entry, it returns [True] or [False], and [True] if and only if both
    [abs(e_last - e_prev) < etol] and [abs(a[i, j]) < gtol] for every entry
    of [a], which is what the largest absolute entry being below [gtol]
    means.  Both comparisons are strict: an energy difference equal to
    [etol], or an entry of absolute value [gtol], is not converged.  The
    default tolerances are 1e-8 and 1e-5. *)
Theorem is_converged_spec (energies : list float) (etol gtol : float) :
  (length energies < 2 →
     ∀ grad_energy_X, _is_converged energies grad_energy_X etol gtol = Ok false)
  ∧ (2 <= length energies →
     ∃ pre e_prev e_last,
       energies = pre ++ [e_prev; e_last]
       ∧ ∀ a : ndarray2, 0 < dim0 a → 0 < dim1 a →
           (∃ c, _is_converged energies (PyMatrix a) etol gtol = Ok c)
           ∧ (_is_converged energies (PyMatrix a) etol gtol = Ok true
              ↔ PrimFloat.ltb (PrimFloat.abs (PrimFloat.sub e_last e_prev)) etol
                = true
                ∧ ∀ i j, i < dim0 a → j < dim1 a →
                    PrimFloat.ltb (PrimFloat.abs (at2 a i j)) gtol = true)
           ∧ (PrimFloat.abs (PrimFloat.sub e_last e_prev) = etol →
              _is_converged energies (PyMatrix a) etol gtol = Ok false)
           ∧ (∀ i j, i < dim0 a → j < dim1 a →
                PrimFloat.abs (at2 a i j) = gtol →
                _is_converged energies (PyMatrix a) etol gtol = Ok false))
  ∧ (∀ grad_energy_X,
       _is_converged_defaults energies grad_energy_X
       = _is_converged energies grad_energy_X 1e-8%float 1e-5%float).
Proof.
  split; [|split].
  - intros H g. unfold _is_converged.
    destruct (length energies) as [|[|n]]; [reflexivity|reflexivity|lia].
  - intros H. destruct (two_last energies H) as (pre & e0 & e1 & ->).
    exists pre, e0, e1. split; [reflexivity|].
    intros a Hd0 Hd1. rewrite is_converged_snoc.
    destruct (abs_max_matrix_below a gtol Hd0 Hd1) as (m & Hm & Hiff).
    rewrite Hm. simpl. rewrite <- Hiff.
    destruct (PrimFloat.ltb (PrimFloat.abs (PrimFloat.sub e1 e0)) etol) eqn:El.
    + split; [eauto|]. split; [|split].
      * split; [intros [= ->]; auto|intros [_ ->]; reflexivity].
      * intros Heq. rewrite Heq, ltb_irrefl in El. discriminate.
      * intros i j Hi Hj Heq.
        destruct (PrimFloat.ltb m gtol) eqn:Em; [|reflexivity].
        pose proof (proj1 Hiff eq_refl i j Hi Hj) as E.
        rewrite Heq, ltb_irrefl in E. discriminate.
    + split; [eauto|]. split; [|split].
      * split; [discriminate|]. intros [Hf _]. discriminate.
      * reflexivity.
      * reflexivity.
  - reflexivity.
Qed.

Lemma is_converged_spec_witness :
  _is_converged [(-1)%float] PyNone etol_default gtol_default = Ok false
  ∧ _is_converged [1%float; 1%float]
      (PyMatrix (of_rows 2 [[0%float; 0.000001%float]]))
      etol_default gtol_default = Ok true
  ∧ _is_converged [1%float; 1%float]
      (PyMatrix (of_rows 2 [[0%float; gtol_default]]))
      etol_default gtol_default = Ok false
  ∧ _is_converged [0%float; etol_default]
      (PyMatrix (of_rows 2 [[0%float; 0%float]]))
      etol_default gtol_default = Ok false.
Proof.
  split; [|split; [|split]].
  - apply (proj1 (is_converged_spec [(-1)%float] etol_default gtol_default)).
    simpl. lia.
  - destruct (proj1 (proj2 (is_converged_spec [1%float; 1%float]
                etol_default gtol_default)))
      as (pre & e0 & e1 & Hes & Ha); [simpl; lia|].
    destruct (Ha (of_rows 2 [[0%float; 0.000001%float]]))
      as (_ & Hiff & _); [simpl; lia|simpl; lia|].
    apply Hiff.
    assert (Hl : rev [1%float; 1%float] = rev (pre ++ [e0; e1]))
      by (rewrite Hes; reflexivity).
    rewrite rev_app_distr in Hl. simpl in Hl.
    assert (e1 = 1%float) as -> by congruence.
    assert (e0 = 1%float) as -> by congruence.
    split; [reflexivity|].
    intros i j Hi Hj. simpl in Hi, Hj.
    assert (i = 0) as -> by lia.
    destruct j as [|[|j]]; [reflexivity|reflexivity|lia].
  - destruct (proj1 (proj2 (is_converged_spec [1%float; 1%float]
                etol_default gtol_default)))
      as (pre & e0 & e1 & Hes & Ha); [simpl; lia|].
    destruct (Ha (of_rows 2 [[0%float; gtol_default]]))
      as (_ & _ & _ & Hstrict); [simpl; lia|simpl; lia|].
    apply (Hstrict 0 1); [simpl; lia|simpl; lia|reflexivity].
  - destruct (proj1 (proj2 (is_converged_spec [0%float; etol_default]
                etol_default gtol_default)))
      as (pre & e0 & e1 & Hes & Ha); [simpl; lia|].
    destruct (Ha (of_rows 2 [[0%float; 0%float]]))
      as (_ & _ & Hstrict & _); [simpl; lia|simpl; lia|].
    apply Hstrict.
    assert (Hl : rev [0%float; etol_default] = rev (pre ++ [e0; e1]))
      by (rewrite Hes; reflexivity).
    rewrite rev_app_distr in Hl. simpl in Hl.
    assert (e1 = etol_default) as -> by congruence.
    assert (e0 = 0%float) as -> by congruence.
    reflexivity.
Defined.

(** X1: the result depends on the last two energies only: the earlier
    history can be dropped. *)
Theorem is_converged_last_two (pre : list float) (e0 e1 : float) (g : pyval)
    (etol gtol : float) :
  _is_converged (pre ++ [e0; e1]) g etol gtol
  = _is_converged [e0; e1] g etol gtol.
Proof.
  rewrite is_converged_snoc. rewrite (is_converged_snoc [] e0 e1). reflexivity.
Qed.

(** X2: when the last energy difference is not below [etol] the gradient
    is not read: the result is [False] for every gradient argument, [None]
    and an empty array included. *)
Theorem is_converged_energy_first (es : list float) (etol gtol e1 e0 : float) :
  2 <= length es →
  index_neg es 1 = Ok e1 → index_neg es 2 = Ok e0 →
  PrimFloat.ltb (PrimFloat.abs (PrimFloat.sub e1 e0)) etol = false →
  ∀ g : pyval, _is_converged es g etol gtol = Ok false.
Proof.
  intros Hlen H1 H0 Hd g.
  rewrite (is_converged_two es g etol gtol e1 e0 Hlen H1 H0), Hd. reflexivity.
Qed.

Lemma is_converged_energy_first_witness :
  _is_converged [0%float; 1%float] PyNone etol_default gtol_default = Ok false.
Proof.
  apply (is_converged_energy_first [0%float; 1%float] etol_default gtol_default
           1%float 0%float); [simpl; lia|reflexivity|reflexivity|].
  vm_compute. reflexivity.
Defined.

Lemma ravel_empty (a : ndarray2) : dim0 a * dim1 a = 0 → ravel a = [].
Proof.
  intros H. apply length_zero_iff_nil. rewrite length_ravel. exact H.
Qed.

(** X3: when the last energy difference is below [etol] the gradient is
    read: [None] is then a [TypeError] and an array without entries a
    [ValueError]. *)
Theorem is_converged_gradient_errors (es : list float) (etol gtol e1 e0 : float) :
  2 <= length es →
  index_neg es 1 = Ok e1 → index_neg es 2 = Ok e0 →
  PrimFloat.ltb (PrimFloat.abs (PrimFloat.sub e1 e0)) etol = true →
  (∃ msg, _is_converged es PyNone etol gtol = Raise (TypeError msg))
  ∧ (∀ a, dim0 a * dim1 a = 0 →
          ∃ msg, _is_converged es (PyMatrix a) etol gtol
                 = Raise (ValueError msg)).
Proof.
  intros Hlen H1 H0 Hd. split.
  - rewrite (is_converged_two es _ etol gtol e1 e0 Hlen H1 H0), Hd.
    eexists. reflexivity.
  - intros a Ha.
    rewrite (is_converged_two es _ etol gtol e1 e0 Hlen H1 H0), Hd.
    unfold abs_max. rewrite (ravel_empty a Ha). eexists. reflexivity.
Qed.

Lemma is_converged_gradient_errors_witness :
  ∃ msg, _is_converged [1%float; 1%float] (PyMatrix (of_rows 3 []))
           etol_default gtol_default = Raise (ValueError msg).
Proof.
  apply (proj2 (is_converged_gradient_errors [1%float; 1%float]
                  etol_default gtol_default 1%float 1%float
                  ltac:(simpl; lia) eq_refl eq_refl eq_refl)).
  reflexivity.
Defined.

(** X4: a NaN among the last two energies is never converged: the result
    is [False] for every gradient and all tolerances. *)
Theorem is_converged_nan_energy (es : list float) (g : pyval)
    (etol gtol e1 e0 : float) :
  2 <= length es →
  index_neg es 1 = Ok e1 → index_neg es 2 = Ok e0 →
  PrimFloat.is_nan e1 = true ∨ PrimFloat.is_nan e0 = true →
  _is_converged es g etol gtol = Ok false.
Proof.
  intros Hlen H1 H0 Hnan.
  rewrite (is_converged_two es g etol gtol e1 e0 Hlen H1 H0).
  rewrite ltb_nan_l; [reflexivity|].
  rewrite is_nan_abs. apply is_nan_sub. exact Hnan.
Qed.

Lemma is_converged_nan_energy_witness :
  _is_converged [1%float; PrimFloat.nan] (PyFloatArray [0%float])
    PrimFloat.infinity PrimFloat.infinity = Ok false.
Proof.
  apply (is_converged_nan_energy [1%float; PrimFloat.nan] _ _ _
           PrimFloat.nan 1%float); [simpl; lia|reflexivity|reflexivity|].
  left. reflexivity.
Defined.

(** X5: for a gradient array with at least one entry, the result is
    [True] exactly when the last energy difference is below [etol] and the
    absolute value of every entry of the array is below [gtol]. *)
Theorem is_converged_all_components (es : list float) (a : ndarray2)
    (etol gtol e1 e0 : float) :
  2 <= length es →
  index_neg es 1 = Ok e1 → index_neg es 2 = Ok e0 →
  0 < dim0 a → 0 < dim1 a →
  (_is_converged es (PyMatrix a) etol gtol = Ok true
   ↔ PrimFloat.ltb (PrimFloat.abs (PrimFloat.sub e1 e0)) etol = true
     ∧ ∀ i j, i < dim0 a → j < dim1 a →
         PrimFloat.ltb (PrimFloat.abs (at2 a i j)) gtol = true).
Proof.
  intros Hlen H1 H0 Hd0 Hd1.
  rewrite (is_converged_two es _ etol gtol e1 e0 Hlen H1 H0).
  assert (Hne : PrimFloat.abs <$> ravel a ≠ []).
  { intros E. apply fmap_nil_inv in E. exact (ravel_nonempty a Hd0 Hd1 E). }
  destruct (max_of_below _ gtol Hne) as (m & Hm & Hiff).
  unfold abs_max. rewrite Hm. simpl.
  assert (Hall : (∀ x, x ∈ PrimFloat.abs <$> ravel a → PrimFloat.ltb x gtol = true)
                 ↔ ∀ i j, i < dim0 a → j < dim1 a →
                     PrimFloat.ltb (PrimFloat.abs (at2 a i j)) gtol = true).
  { split.
    - intros H i j Hi Hj. apply H, list_elem_of_fmap.
      exists (at2 a i j). split; [reflexivity|].
      apply elem_of_ravel. eauto.
    - intros H x Hx. apply list_elem_of_fmap in Hx as (y & -> & Hy).
      apply elem_of_ravel in Hy as (i & j & Hi & Hj & ->). auto. }
  rewrite <- Hall, <- Hiff.
  destruct (PrimFloat.ltb (PrimFloat.abs (PrimFloat.sub e1 e0)) etol).
  - split; [intros [= ->]; auto|intros [_ ->]; reflexivity].
  - split; [discriminate|intros [? _]; discriminate].
Qed.

Lemma is_converged_all_components_witness :
  _is_converged [1%float; 1%float] (PyMatrix (of_rows 1 [[0%float]; [0%float]]))
    etol_default gtol_default = Ok true.
Proof.
  apply (is_converged_all_components [1%float; 1%float]
           (of_rows 1 [[0%float]; [0%float]]) etol_default gtol_default
           1%float 1%float);
    [simpl; lia|reflexivity|reflexivity|simpl; lia|simpl; lia|].
  split; [reflexivity|].
  intros i j Hi Hj. simpl in Hi, Hj.
  assert (j = 0) as -> by lia.
  destruct i as [|[|i]]; [reflexivity|reflexivity|lia].
Defined.

(** X6: a NaN entry in the gradient array is never converged: the result
    is [False] for every energy history and all tolerances. *)
Theorem is_converged_nan_gradient (es : list float) (a : ndarray2)
    (etol gtol : float) (i j : nat) :
  i < dim0 a → j < dim1 a → PrimFloat.is_nan (at2 a i j) = true →
  _is_converged es (PyMatrix a) etol gtol = Ok false.
Proof.
  intros Hi Hj Hnan.
  destruct (decide (length es < 2)) as [Hlt|Hge].
  { unfold _is_converged.
    destruct (length es) as [|[|n]]; [reflexivity|reflexivity|lia]. }
  destruct (two_last es ltac:(lia)) as (pre & e0 & e1 & ->).
  rewrite is_converged_snoc.
  destruct (PrimFloat.ltb _ etol); [|reflexivity].
  assert (Hin : PrimFloat.abs (at2 a i j) ∈ PrimFloat.abs <$> ravel a).
  { apply list_elem_of_fmap. eexists. split; [reflexivity|].
    apply elem_of_ravel. eauto. }
  unfold abs_max, max_of.
  destruct (PrimFloat.abs <$> ravel a) as [|x l]; [inversion Hin|].
  simpl. rewrite ltb_nan_l; [reflexivity|].
  apply foldl_maximum_nan.
  apply elem_of_cons in Hin as [<-|Hin].
  - left. rewrite is_nan_abs. exact Hnan.
  - right. eexists. split; [exact Hin|]. rewrite is_nan_abs. exact Hnan.
Qed.

Lemma is_converged_nan_gradient_witness :
  _is_converged [1%float; 1%float]
    (PyMatrix (of_rows 2 [[0%float; PrimFloat.nan]]))
    PrimFloat.infinity PrimFloat.infinity = Ok false.
Proof.
  apply (is_converged_nan_gradient _ _ _ _ 0 1); [simpl; lia|simpl; lia|].
  reflexivity.
Defined.

(** X7: convergence is monotone in the tolerances: what is converged for
    [etol] and [gtol] is converged for any tolerances that are not
    smaller. *)
Theorem is_converged_tolerance_mono (es : list float) (g : pyval)
    (etol gtol etol' gtol' : float) :
  _is_converged es g etol gtol = Ok true →
  PrimFloat.leb etol etol' = true → PrimFloat.leb gtol gtol' = true →
  _is_converged es g etol' gtol' = Ok true.
Proof.
  intros Hc He Hg.
  destruct (decide (length es < 2)) as [Hlt|Hge].
  { unfold _is_converged in Hc.
    destruct (length es) as [|[|n]]; [discriminate|discriminate|lia]. }
  destruct (two_last es ltac:(lia)) as (pre & e0 & e1 & ->).
  rewrite is_converged_snoc in *.
  destruct (PrimFloat.ltb _ etol) eqn:Ed; [|discriminate].
  rewrite (ltb_leb_trans _ _ _ Ed He).
  destruct (abs_max g) as [m|]; simpl in *; [|discriminate].
  injection Hc as Hm. rewrite (ltb_leb_trans _ _ _ Hm Hg). reflexivity.
Qed.

Lemma is_converged_tolerance_mono_witness :
  _is_converged [1%float; 1%float] (PyFloatArray [0%float])
    1%float 1%float = Ok true.
Proof.
  apply (is_converged_tolerance_mono _ _ etol_default gtol_default);
    vm_compute; reflexivity.
Defined.

(** ** Coordinate transform and evaluation adapter, continued *)

Lemma bidx_lt (d i : nat) : i < d → bidx d i = i.
Proof. unfold bidx. intros H. destruct (decide (d = 1)); [lia|reflexivity]. Qed.

Lemma bind_ext_in {A B} (f g : A → list B) (l : list A) :
  (∀ x, x ∈ l → f x = g x) → l ≫= f = l ≫= g.
Proof.
  induction l as [|x l IH]; intros H; [reflexivity|].
  rewrite !bind_cons, (H x) by left. f_equal. apply IH.
  intros y Hy. apply H. right. exact Hy.
Qed.

Lemma fmap_ext_in {A B} (f g : A → B) (l : list A) :
  (∀ x, x ∈ l → f x = g x) → f <$> l = g <$> l.
Proof.
  induction l as [|x l IH]; intros H; [reflexivity|].
  rewrite !fmap_cons, (H x) by left. f_equal. apply IH.
  intros y Hy. apply H. right. exact Hy.
Qed.

(** X8: for a Cartesian gradient and a Jacobian whose contracted axes have
    the same lengths, entry [k, l] of the internal gradient is the sum over
    the coordinates [a] and the atoms [i] of
    [grad_energy_X[i, a] * grad_X[a, i, k, l]], except in the gauge-fixed
    block, where it is [0.]: the entries of the rows from 3 on and the
    entries left of the diagonal in the first three rows are left as
    computed. *)
Theorem coordinate_transform_entries (gX : ndarray2) (grad_X : ndarray4) :
  dim1 gX = d0 grad_X → dim0 gX = d1 grad_X →
  ∃ C, coordinate_transform gX grad_X = Ok C
       ∧ dim0 C = d2 grad_X ∧ dim1 C = d3 grad_X
       ∧ ∀ k l, at2 C k l
           = if decide (k < min 3 (d2 grad_X) ∧ k <= l) then 0%float
             else sum_of (a ← seq 0 (d0 grad_X);
                          (fun i => PrimFloat.mul (at2 gX i a)
                                      (at4 grad_X a i k l))
                          <$> seq 0 (d1 grad_X)).
Proof.
  intros H0 H1.
  destruct (contract_shape gX grad_X H0 H1) as (C0' & HC0' & _).
  destruct (zero_gauge_spec C0') as (C & HC' & _).
  assert (HC : coordinate_transform gX grad_X = Ok C).
  { unfold coordinate_transform. rewrite HC0'. exact HC'. }
  exists C. split; [exact HC|].
  destruct (coordinate_transform_inv _ _ _ HC) as (C0 & HC0 & Hd0 & Hd1 & Hat).
  unfold contract, broadcast_dim in HC0. simpl in HC0.
  rewrite !decide_True in HC0 by assumption. simpl in HC0.
  injection HC0 as <-. simpl in *.
  split; [exact Hd0|]. split; [exact Hd1|].
  intros k l. rewrite Hat. destruct (decide _); [reflexivity|].
  f_equal. rewrite H0, H1.
  apply bind_ext_in. intros a Ha. apply elem_of_seq in Ha.
  apply fmap_ext_in. intros i Hi. apply elem_of_seq in Hi.
  rewrite <- H0, <- H1 at 1 2.
  rewrite !bidx_lt by lia. reflexivity.
Qed.

Lemma coordinate_transform_entries_witness :
  ∃ C, coordinate_transform sample_grad_energy_X sample_grad_X = Ok C
       ∧ at2 C 0 0 = 0%float ∧ at2 C 3 1 = 0.5%float.
Proof.
  destruct (coordinate_transform_entries sample_grad_energy_X sample_grad_X
              eq_refl eq_refl) as (C & HC & _ & _ & Hat).
  exists C. split; [exact HC|]. rewrite !Hat. split; reflexivity.
Defined.

(** X9: zeroing the gauge-fixed block a second time changes nothing. *)
Theorem zero_gauge_idempotent (a a' : ndarray2) :
  zero_gauge a = Ok a' →
  ∃ a'', zero_gauge a' = Ok a''
         ∧ dim0 a'' = dim0 a' ∧ dim1 a'' = dim1 a'
         ∧ ∀ r c, at2 a'' r c = at2 a' r c.
Proof.
  intros Ha.
  destruct (zero_gauge_spec a) as (b & Hb & Hb0 & Hb1 & Hbat).
  rewrite Ha in Hb. injection Hb as <-.
  destruct (zero_gauge_spec a') as (a'' & Ha'' & H0 & H1 & Hat).
  exists a''. split; [exact Ha''|]. split; [exact H0|]. split; [exact H1|].
  intros r c. rewrite Hat, Hbat, Hb0.
  repeat destruct (decide _); reflexivity.
Qed.

Lemma zero_gauge_idempotent_witness :
  ∃ a' a'', zero_gauge sample_grad_energy_X = Ok a'
            ∧ zero_gauge a' = Ok a'' ∧ at2 a'' 3 0 = at2 a' 3 0.
Proof.
  destruct (zero_gauge_spec sample_grad_energy_X) as (a' & Ha' & _).
  destruct (zero_gauge_idempotent _ _ Ha') as (a'' & Ha'' & _ & _ & Hat).
  exists a', a''. auto.
Defined.

Lemma broadcast_dim_ok (x y : nat) :
  compatible x y → ∃ n, broadcast_dim x y = Ok n.
Proof.
  unfold broadcast_dim. intros H.
  repeat destruct (decide _); eauto. unfold compatible in H. lia.
Qed.

Lemma broadcast_dim_fail (x y : nat) :
  ¬ compatible x y → ∃ msg, broadcast_dim x y = Raise (ValueError msg).
Proof.
  unfold broadcast_dim, compatible. intros H.
  repeat destruct (decide _); try (exfalso; apply H; auto; fail).
  eauto.
Qed.

(** X10: the coordinate transform succeeds exactly when the axes it
    contracts broadcast: the coordinate axes of the transposed gradient and
    of the Jacobian, and their atom axes, are of equal length or one of them
    has length 1.  It then returns an array of the shape of the Jacobian's
    last two axes; otherwise it raises a [ValueError]. *)
Theorem coordinate_transform_broadcast (gX : ndarray2) (grad_X : ndarray4) :
  (compatible (dim1 gX) (d0 grad_X) ∧ compatible (dim0 gX) (d1 grad_X) →
   ∃ C, coordinate_transform gX grad_X = Ok C
        ∧ dim0 C = d2 grad_X ∧ dim1 C = d3 grad_X)
  ∧ (¬ (compatible (dim1 gX) (d0 grad_X) ∧ compatible (dim0 gX) (d1 grad_X)) →
     ∃ msg, coordinate_transform gX grad_X = Raise (ValueError msg)).
Proof.
  split.
  - intros [H0 H1]. unfold coordinate_transform, contract. simpl.
    destruct (broadcast_dim_ok _ _ H0) as [n0 ->].
    destruct (broadcast_dim_ok _ _ H1) as [n1 ->]. simpl.
    destruct (zero_gauge_spec
                {| dim0 := d2 grad_X; dim1 := d3 grad_X;
                   at2 := fun k l =>
                     sum_of (a ← seq 0 n0;
                       (fun i => PrimFloat.mul
                          (at2 (transpose gX) (bidx (dim0 (transpose gX)) a)
                             (bidx (dim1 (transpose gX)) i))
                          (at4 grad_X (bidx (d0 grad_X) a)
                             (bidx (d1 grad_X) i) k l))
                       <$> seq 0 n1) |})
      as (C & HC & Hd0 & Hd1 & _).
    exists C. split; [exact HC|]. simpl in *. auto.
  - intros H. unfold coordinate_transform, contract. simpl.
    destruct (decide (compatible (dim1 gX) (d0 grad_X))) as [H0|H0].
    + destruct (broadcast_dim_ok _ _ H0) as [n0 ->]. simpl.
      destruct (broadcast_dim_fail (dim0 gX) (d1 grad_X)) as [msg ->]; [tauto|].
      eexists. reflexivity.
    + destruct (broadcast_dim_fail _ _ H0) as [msg ->].
      eexists. reflexivity.
Qed.

Lemma coordinate_transform_broadcast_witness :
  ∃ msg, coordinate_transform (of_rows 2 [[1%float; 2%float]]) sample_grad_X
         = Raise (ValueError msg).
Proof.
  apply (proj2 (coordinate_transform_broadcast
                  (of_rows 2 [[1%float; 2%float]]) sample_grad_X)).
  unfold compatible. simpl. lia.
Defined.

(** X11: [V] fails with the exception of the electronic calculation when
    that fails, and with an [IndexError] when the result holds no SCF energy
    or (an energy but) no gradient. *)
Theorem V_failures (calculate : Zmat → result calc_result)
    (convertor : float → string → string → float)
    (get_grad_cartesian : Zmat → ndarray4) (zm : Zmat) :
  (∀ e, calculate zm = Raise e →
        V calculate convertor get_grad_cartesian zm = Raise e)
  ∧ (∀ r, calculate zm = Ok r → scfenergies r = [] →
          ∃ msg, V calculate convertor get_grad_cartesian zm
                 = Raise (IndexError msg))
  ∧ (∀ r, calculate zm = Ok r → scfenergies r ≠ [] → grads r = [] →
          ∃ msg, V calculate convertor get_grad_cartesian zm
                 = Raise (IndexError msg)).
Proof.
  unfold V. split; [|split].
  - intros e ->. reflexivity.
  - intros r Hr Hs. rewrite Hr. simpl. rewrite Hs. eexists. reflexivity.
  - intros r Hr He Hg. rewrite Hr. simpl.
    destruct (scfenergies r); [congruence|]. simpl. rewrite Hg.
    eexists. reflexivity.
Qed.

Lemma V_failures_witness :
  ∃ msg, V (fun _ => Ok {| scfenergies := []; grads := [] |})
           (fun x _ _ => x) (fun _ => sample_grad_X) sample_zmat
         = Raise (IndexError msg).
Proof.
  apply (proj1 (proj2 (V_failures
                  (fun _ => Ok {| scfenergies := []; grads := [] |})
                  (fun x _ _ => x) (fun _ => sample_grad_X) sample_zmat))
           {| scfenergies := []; grads := [] |}); reflexivity.
Defined.

(** X12: of the result of the electronic calculation [V] uses the first
    SCF energy and the first gradient only: two results that agree on these
    give the same outcome.  On success the energy returned is the converted
    first energy, and the Cartesian gradient returned is the first gradient
    divided by the conversion factor, without any gauge fixing. *)
Theorem V_first_entries (calculate calculate' : Zmat → result calc_result)
    (convertor : float → string → string → float)
    (get_grad_cartesian : Zmat → ndarray4) (zm : Zmat) (r r' : calc_result) :
  calculate zm = Ok r → calculate' zm = Ok r' →
  head (scfenergies r) = head (scfenergies r') →
  head (grads r) = head (grads r') →
  V calculate convertor get_grad_cartesian zm
  = V calculate' convertor get_grad_cartesian zm
  ∧ ∀ energy gX gC,
      V calculate convertor get_grad_cartesian zm = Ok (energy, gX, gC) →
      ∃ e0 g0, head (scfenergies r) = Some e0 ∧ head (grads r) = Some g0
               ∧ energy = convertor e0 "eV" "hartree"
               ∧ gX = div_scalar g0 (convertor 1%float "bohr" "Angstrom").
Proof.
  intros Hr Hr' He Hg. unfold V. rewrite Hr, Hr'. simpl.
  destruct (scfenergies r) as [|e0 es], (scfenergies r') as [|e0' es'];
    simpl in He; try discriminate; [split; [reflexivity|discriminate]|].
  injection He as <-. simpl.
  destruct (grads r) as [|g0 gs], (grads r') as [|g0' gs'];
    simpl in Hg; try discriminate; [split; [reflexivity|discriminate]|].
  injection Hg as <-. simpl. split; [reflexivity|].
  intros energy gX gC H.
  destruct (coordinate_transform _ _); simpl in H; [|discriminate].
  injection H as <- <- _. exists e0, g0. auto.
Qed.

Lemma V_first_entries_witness :
  V (fun _ => Ok {| scfenergies := [1%float; 2%float];
                    grads := [sample_grad_energy_X; of_rows 3 []] |})
    (fun x _ _ => x) (fun _ => sample_grad_X) sample_zmat
  = V (fun _ => Ok {| scfenergies := [1%float];
                      grads := [sample_grad_energy_X] |})
      (fun x _ _ => x) (fun _ => sample_grad_X) sample_zmat.
Proof.
  apply (proj1 (V_first_entries
                  (fun _ => Ok {| scfenergies := [1%float; 2%float];
                                  grads := [sample_grad_energy_X; of_rows 3 []] |})
                  (fun _ => Ok {| scfenergies := [1%float];
                                  grads := [sample_grad_energy_X] |})
                  (fun x _ _ => x) (fun _ => sample_grad_X) sample_zmat
                  _ _ eq_refl eq_refl eq_refl eq_refl)).
Defined.

(** ** Applying a step, continued *)

Lemma chunks_flat (n : nat) (c : list float) :
  length c = 3 * n →
  (seq 0 n ≫= fun i => (fun j => default 0%float (c !! (3 * i + j))) <$> seq 0 3)
  = c.
Proof.
  revert c. induction n as [|n IH]; intros c Hc.
  - destruct c; [reflexivity|simpl in Hc; lia].
  - destruct c as [|x0 [|x1 [|x2 c']]]; simpl in Hc; try lia.
    change (seq 0 (S n)) with (0 :: seq 1 n).
    rewrite bind_cons.
    change ((fun j => default 0%float ((x0 :: x1 :: x2 :: c') !! (3 * 0 + j)))
            <$> seq 0 3) with [x0; x1; x2].
    change ([x0; x1; x2] ++ ?l) with (x0 :: x1 :: x2 :: l).
    do 3 f_equal.
    rewrite <- fmap_S_seq, list_fmap_bind.
    etransitivity; [|apply (IH c'); lia].
    apply bind_ext_in. intros i _. unfold compose.
    apply fmap_ext_in. intros j _.
    replace (3 * S i + j) with (S (S (S (3 * i + j)))) by lia.
    reflexivity.
Qed.

(** X14: laying the flat array out in rows of three and reading the rows
    in order gives the flat array back: row [i] of the reshaped array holds
    the entries [3 i], [3 i + 1] and [3 i + 2]. *)
Theorem reshape_ravel (c : list float) (n : nat) :
  length c = 3 * n →
  ∃ C, reshape_F_T c = Ok C ∧ dim0 C = n ∧ dim1 C = 3 ∧ ravel C = c.
Proof.
  intros Hc.
  destruct (reshape_F_T_ok c n Hc) as (C & HC & H0 & H1 & Hat).
  exists C. split; [exact HC|]. split; [exact H0|]. split; [exact H1|].
  unfold ravel. rewrite H0, H1.
  etransitivity; [|exact (chunks_flat n c Hc)].
  apply bind_ext_in. intros i _. apply fmap_ext_in. intros j _. apply Hat.
Qed.

Lemma reshape_ravel_witness :
  ∃ C, reshape_F_T sample_C_rad = Ok C ∧ ravel C = sample_C_rad.
Proof.
  destruct (reshape_ravel sample_C_rad 4 eq_refl) as (C & HC & _ & _ & Hr).
  exists C. auto.
Defined.

(** ** Output files, continued *)

Lemma string_app_assoc (a b c : string) : (a +:+ b) +:+ c = a +:+ (b +:+ c).
Proof.
  induction a as [|x a IH]; [reflexivity|].
  change (String x ((a +:+ b) +:+ c) = String x (a +:+ (b +:+ c))).
  f_equal. exact IH.
Qed.

Lemma string_app_nil_r (a : string) : a +:+ "" = a.
Proof.
  induction a as [|x a IH]; [reflexivity|].
  change (String x (a +:+ "") = String x a). f_equal. exact IH.
Qed.

(** A path whose first component is not empty is neither empty nor
    absolute. *)
Lemma split_sep_hd (s c : string) (rest : list string) :
  split_sep s = c :: rest → c ≠ "" → s ≠ "" ∧ String.prefix "/" s = false.
Proof.
  intros Hs Hc. destruct s as [|a s].
  - simpl in Hs. congruence.
  - split; [discriminate|]. simpl in Hs.
    destruct (Ascii.eqb a "/") eqn:E; [congruence|].
    unfold String.prefix.
    destruct (ascii_dec "/" a) as [Ea|_]; [|reflexivity].
    rewrite <- Ea in E. discriminate E.
Qed.

Lemma split_sep_app (a s : string) :
  sep_free a = true → split_sep (a +:+ String "/" s) = a :: split_sep s.
Proof.
  induction a as [|x a IH]; intros Ha.
  - reflexivity.
  - change (negb (Ascii.eqb x "/") && sep_free a = true) in Ha.
    apply andb_true_iff in Ha as [Hx Ha]. apply negb_true_iff in Hx.
    change (split_sep (String x (a +:+ String "/" s)) = String x a :: split_sep s).
    simpl. rewrite Hx, (IH Ha). reflexivity.
Qed.


Lemma special_length (s : string) : special s = true → String.length s <= 2.
Proof.
  unfold special. intros H. apply bool_decide_eq_true in H.
  destruct H as [->|[->| ->]]; simpl; lia.
Qed.

Lemma ordinary_long (s : string) :
  sep_free s = true → 3 <= String.length s → ordinary s = true.
Proof.
  intros Hs Hl. unfold ordinary. rewrite Hs.
  destruct (special s) eqn:E; [|reflexivity].
  apply special_length in E. lia.
Qed.

Lemma brace_free_app (s1 s2 : string) :
  brace_free (s1 +:+ s2) = brace_free s1 && brace_free s2.
Proof.
  induction s1 as [|c s1 IH]; [reflexivity|].
  change (brace_free (String c (s1 +:+ s2))
          = brace_free (String c s1) && brace_free s2).
  simpl. rewrite IH.
  destruct (Ascii.eqb c "{"), (Ascii.eqb c "}"); reflexivity.
Qed.

Lemma normpath_step_ordinary (comps : list string) (c : string) :
  ordinary c = true → normpath_step 0 comps c = comps ++ [c].
Proof.
  intros Hord. apply ordinary_inv in Hord as (_ & H0 & H1 & H2).
  unfold normpath_step.
  destruct (decide (c = "" ∨ c = ".")) as [[?|?]|_];
    [congruence|congruence|].
  destruct (decide (c ≠ ".." ∨ _)) as [_|Hn]; [reflexivity|].
  destruct Hn. left. exact H2.
Qed.

(** The first component of a path of two names. *)
Lemma first_component_join (c1 c2 : string) :
  ordinary c1 = true → ordinary c2 = true →
  split_sep (c1 +:+ String "/" c2) = [c1; c2]
  ∧ first_component (c1 +:+ String "/" c2) = c1.
Proof.
  intros H1 H2.
  pose proof (ordinary_inv _ H1) as (Hs1 & H10 & _).
  pose proof (ordinary_inv _ H2) as (Hs2 & _).
  assert (Hsplit : split_sep (c1 +:+ String "/" c2) = [c1; c2]).
  { rewrite split_sep_app by exact Hs1.
    rewrite (split_sep_sep_free c2 Hs2). reflexivity. }
  split; [exact Hsplit|].
  destruct (split_sep_hd _ _ _ Hsplit H10) as [Hne Hpre].
  assert (Hnorm : normpath (c1 +:+ String "/" c2) = c1 +:+ String "/" c2).
  { unfold normpath.
    rewrite (decide_False (P := c1 +:+ String "/" c2 = "")) by exact Hne.
    rewrite Hpre, Hsplit.
    change (foldl (normpath_step 0) [] [c1; c2])
      with (normpath_step 0 (normpath_step 0 [] c1) c2).
    rewrite (normpath_step_ordinary [] c1 H1).
    rewrite (normpath_step_ordinary _ c2 H2).
    change (String.concat "" (replicate 0 "/") +:+ join_sep (([] ++ [c1]) ++ [c2]))
      with (c1 +:+ String "/" c2).
    rewrite (decide_False (P := c1 +:+ String "/" c2 = "")) by exact Hne.
    reflexivity. }
  unfold first_component. rewrite Hnorm, Hsplit. reflexivity.
Qed.

Section RotationFacts2.

Variable exists_outside : gmap string node → string → bool.
Variable open_outside :
  gmap string node → string → string → result unit * gmap string node.
Variable str_format : string → nat → result string.

Lemma find_end_fuel (fs : gmap string node) (base : string)
    (fuel1 fuel2 e : nat) (r1 r2 : result nat) :
  find_end exists_outside str_format fuel1 fs base e = Some r1 →
  find_end exists_outside str_format fuel2 fs base e = Some r2 →
  r1 = r2.
Proof.
  revert fuel2 e. induction fuel1 as [|fuel1 IH]; intros fuel2 e H1 H2;
    [discriminate|].
  destruct fuel2 as [|fuel2]; [discriminate|]. simpl in H1, H2.
  destruct (get_path str_format base e); [|congruence].
  destruct (negb _); [congruence|]. exact (IH _ _ H1 H2).
Qed.

(** The outcome of a call does not depend on the fuel, when there is
    one. *)
Lemma rename_existing_fuel (fs : gmap string node) (filepath : string)
    (fuel1 fuel2 : nat) (out1 out2 : result unit * gmap string node) :
  rename_existing exists_outside str_format fuel1 fs filepath = Some out1 →
  rename_existing exists_outside str_format fuel2 fs filepath = Some out2 →
  out1 = out2.
Proof.
  unfold rename_existing.
  destruct (os_path_exists exists_outside fs filepath); [|congruence].
  destruct (find_end _ _ fuel1 _ _ _) as [r1|] eqn:E1; [|discriminate].
  destruct (find_end _ _ fuel2 _ _ _) as [r2|] eqn:E2;
    [|destruct r1; discriminate].
  rewrite (find_end_fuel _ _ _ _ _ _ _ E1 E2). congruence.
Qed.

(** What a successful rotation of an existing path has done, whatever the
    fuel it was given. *)
Lemma rename_existing_done (fuel : nat) (fs : gmap string node)
    (filepath base : string) (n : node) (k : nat)
    (out : result unit * gmap string node) :
  os_path_exists exists_outside fs filepath = true →
  first_component filepath = base →
  special base = false → brace_free base = true →
  fs !! base = Some n →
  first_free exists_outside fs base k → fs !! backup_name base k = None →
  rename_existing exists_outside str_format fuel fs filepath = Some out →
  ∃ fs',
    out = (Ok tt, fs')
    ∧ fs' !! base = None
    ∧ fs' !! backup_name base 1 = Some n
    ∧ (∀ i, 1 <= i < k →
         fs' !! backup_name base (S i) = fs !! backup_name base i)
    ∧ (∀ name, name ≠ base →
         (∀ i, 1 <= i <= k → name ≠ backup_name base i) →
         fs' !! name = fs !! name).
Proof.
  intros Hex Hbase Hsp Hbf Hn Hff Hfree Hrun.
  destruct (rename_existing_at exists_outside str_format fs filepath base n k
              Hex Hbase Hsp Hbf Hn Hff Hfree)
    as (fs0 & Hspec & Hgone & Hto1 & Hmoved & Hrest).
  destruct (Hspec (S (size fs)) ltac:(lia)) as [_ Hrun0].
  exists fs0. split; [exact (rename_existing_fuel _ _ _ _ _ _ Hrun Hrun0)|].
  auto.
Qed.

Lemma rotation_dom_size (fs fs' : gmap string node) (base : string) (k : nat)
    (n : node) :
  1 <= k →
  fs !! base = Some n →
  fs !! backup_name base k = None →
  (∀ i, 1 <= i < k → is_Some (fs !! backup_name base i)) →
  fs' !! base = None →
  fs' !! backup_name base 1 = Some n →
  (∀ i, 1 <= i < k → fs' !! backup_name base (S i) = fs !! backup_name base i) →
  (∀ name, name ≠ base → (∀ i, 1 <= i <= k → name ≠ backup_name base i) →
           fs' !! name = fs !! name) →
  dom fs' = {[backup_name base k]} ∪ (dom fs ∖ {[base]})
  ∧ size fs' = size fs.
Proof.
  intros Hk Hn Hfree Hocc Hgone Hto1 Hmoved Hrest.
  assert (Hdom : dom fs' = {[backup_name base k]} ∪ (dom fs ∖ {[base]})).
  { apply set_eq. intros name.
    rewrite elem_of_union, elem_of_difference, elem_of_singleton,
      !elem_of_dom, elem_of_singleton.
    destruct (decide (name = base)) as [->|Hb].
    { rewrite Hgone. split.
      - intros [x Hx]. discriminate.
      - intros [E|[_ E]]; [|contradiction].
        symmetry in E. destruct (backup_name_ne_base _ _ E). }
    destruct (decide (name ∈ backup_name base <$> seq 1 k)) as [Hin|Hnin].
    - apply list_elem_of_fmap in Hin as (i & -> & Hi). apply elem_of_seq in Hi.
      split.
      + intros _. destruct (decide (i = k)) as [->|Hne]; [left; reflexivity|].
        right. split; [apply Hocc; lia|exact Hb].
      + intros _. destruct i as [|[|j]]; [lia| |].
        * rewrite Hto1. eauto.
        * rewrite Hmoved by lia. apply Hocc. lia.
    - assert (Hne : ∀ i, 1 <= i <= k → name ≠ backup_name base i).
      { intros i Hi ->. apply Hnin, list_elem_of_fmap.
        exists i. split; [reflexivity|]. apply elem_of_seq. lia. }
      rewrite (Hrest name Hb Hne). split.
      + intros H. right. split; [exact H|exact Hb].
      + intros [E|[H _]]; [|exact H]. destruct (Hne k ltac:(lia) E). }
  split; [exact Hdom|].
  rewrite <- !size_dom, Hdom.
  assert (Hnotin : backup_name base k ∉ dom fs)
    by (apply not_elem_of_dom; exact Hfree).
  assert (Hin : base ∈ dom fs) by (apply elem_of_dom; eauto).
  rewrite size_union.
  2:{ apply disjoint_singleton_l. rewrite elem_of_difference.
      intros [H _]. contradiction. }
  rewrite (union_difference_L {[base]} (dom fs)) at 2
    by (apply singleton_subseteq_l; exact Hin).
  rewrite (size_union {[base]}).
  2:{ apply disjoint_singleton_l. rewrite elem_of_difference.
      intros [_ H]. apply H. apply elem_of_singleton. reflexivity. }
  rewrite !size_singleton. reflexivity.
Qed.

Lemma first_free_occupied (fs : gmap string node) (base : string) (k : nat) :
  sep_free base = true → first_free exists_outside fs base k →
  ∀ i, 1 <= i < k → is_Some (fs !! backup_name base i).
Proof.
  intros Hsep Hff i Hi.
  apply (exists_name_Some exists_outside); [apply ordinary_backup_name, Hsep|].
  apply Hff. exact Hi.
Qed.

(** [os.path.exists] of a relative path that begins with a name: the name
    is looked up in the working directory and the walk goes on from
    there. *)
Lemma exists_first (fs : gmap string node) (filepath c : string)
    (rest : list string) :
  split_sep filepath = c :: rest → ordinary c = true →
  os_path_exists exists_outside fs filepath
  = match fs !! c with
    | Some n => match walk fs [n] rest with
                | Some found => found
                | None => exists_outside fs filepath
                end
    | None => false
    end.
Proof.
  intros Hsplit Hord. apply ordinary_inv in Hord as (_ & H0 & H1 & H2).
  destruct (split_sep_hd _ _ _ Hsplit H0) as [Hne Hpre].
  unfold os_path_exists.
  rewrite decide_False by exact Hne. rewrite Hpre, Hsplit. simpl.
  destruct (decide (c = "" ∨ c = ".")) as [[?|?]|_];
    [congruence|congruence|].
  rewrite decide_False by exact H2.
  destruct (fs !! c); reflexivity.
Qed.


End RotationFacts2.

(** X16: the rotation of an existing path whose first component is an
    entry of the working directory with a name without braces, when the
    first numbered suffix that does not exist is a free name: the call
    succeeds and changes the set of names of the directory by exactly two,
    the component goes and its first free numbered backup name comes.  The
    number of entries stays the same. *)
Theorem rename_existing_names
    (exists_outside : gmap string node → string → bool)
    (str_format : string → nat → result string)
    (fuel : nat) (fs : gmap string node) (filepath base : string) (k : nat)
    (outcome : result unit * gmap string node) :
  os_path_exists exists_outside fs filepath = true →
  first_component filepath = base →
  special base = false → brace_free base = true →
  is_Some (fs !! base) →
  first_free exists_outside fs base k → fs !! backup_name base k = None →
  rename_existing exists_outside str_format fuel fs filepath = Some outcome →
  ∃ fs', outcome = (Ok tt, fs')
         ∧ dom fs' = {[backup_name base k]} ∪ (dom fs ∖ {[base]})
         ∧ size fs' = size fs.
Proof.
  intros Hex Hbase Hsp Hbf [n Hn] Hff Hfree Hrun.
  destruct (rename_existing_done exists_outside str_format fuel fs filepath
              base n k outcome Hex Hbase Hsp Hbf Hn Hff Hfree Hrun)
    as (fs' & -> & Hgone & Hto1 & Hmoved & Hrest).
  exists fs'. split; [reflexivity|].
  apply (rotation_dom_size fs fs' base k n); try assumption.
  - apply Hff.
  - apply (first_free_occupied exists_outside); [|exact Hff].
    rewrite <- Hbase. apply first_component_sep_free.
Qed.

Lemma rename_existing_names_witness :
  ∃ fs', rename_existing nothing_outside no_format 4 gap_dir "report.md"
         = Some (Ok tt, fs')
         ∧ size fs' = 3.
Proof.
  destruct (rename_existing_names nothing_outside no_format 4 gap_dir
              "report.md" "report.md" 2
              (Ok tt, {[ "report.md_1" := File "new";
                         "report.md_2" := File "old 1";
                         "report.md_3" := File "old 3" ]}))
    as (fs' & Hout & _ & Hsize);
    [reflexivity|reflexivity|reflexivity|reflexivity
    |vm_compute; eauto|exact gap_dir_first_free|reflexivity
    |vm_compute; reflexivity|].
  exists fs'. split; [rewrite <- Hout; vm_compute; reflexivity|].
  rewrite Hsize. reflexivity.
Defined.

(** X17: for a relative path that begins with a name without braces, when
    the first numbered suffix of that name that does not exist is a free
    name: after a successful call the path does not exist any more, and a
    second call changes nothing. *)
Theorem rename_existing_idempotent
    (exists_outside : gmap string node → string → bool)
    (str_format : string → nat → result string)
    (fuel : nat) (fs fs' : gmap string node) (filepath c : string)
    (rest : list string) (k : nat) :
  split_sep filepath = c :: rest → ordinary c = true →
  first_component filepath = c → brace_free c = true →
  first_free exists_outside fs c k → fs !! backup_name c k = None →
  rename_existing exists_outside str_format fuel fs filepath
  = Some (Ok tt, fs') →
  os_path_exists exists_outside fs' filepath = false
  ∧ ∀ fuel', rename_existing exists_outside str_format fuel' fs' filepath
             = Some (Ok tt, fs').
Proof.
  intros Hsplit Hord Hbase Hbf Hff Hfree Hrun.
  assert (Hgone : os_path_exists exists_outside fs' filepath = false).
  { destruct (os_path_exists exists_outside fs filepath) eqn:Hex.
    - pose proof Hex as Hex'.
      rewrite (exists_first exists_outside fs filepath c rest Hsplit Hord)
        in Hex'.
      destruct (fs !! c) as [n|] eqn:Hn; [|discriminate].
      destruct (rename_existing_done exists_outside str_format fuel fs filepath
                  c n k _ Hex Hbase (ordinary_special _ Hord) Hbf Hn Hff Hfree
                  Hrun)
        as (fs0 & Hout & Hgone & _).
      injection Hout as <-.
      rewrite (exists_first exists_outside fs' filepath c rest Hsplit Hord).
      rewrite Hgone. reflexivity.
    - unfold rename_existing in Hrun. rewrite Hex in Hrun.
      injection Hrun as <-. exact Hex. }
  split; [exact Hgone|].
  intros fuel'. unfold rename_existing. rewrite Hgone. reflexivity.
Qed.

Lemma rename_existing_idempotent_witness :
  rename_existing nothing_outside no_format 0
    {[ "run_el_calcs_1" := Dir [("run.inp", File "input")] ]}
    "run_el_calcs/run.inp"
  = Some (Ok tt, {[ "run_el_calcs_1" := Dir [("run.inp", File "input")] ]}).
Proof.
  apply (proj2 (rename_existing_idempotent nothing_outside no_format 2
                  calc_dir {[ "run_el_calcs_1" := Dir [("run.inp", File "input")] ]}
                  "run_el_calcs/run.inp" "run_el_calcs" ["run.inp"] 1
                  eq_refl eq_refl eq_refl eq_refl
                  ltac:(split; [lia|split; [reflexivity|intros i Hi; lia]])
                  eq_refl ltac:(vm_compute; reflexivity))).
Defined.



Section RotationFacts3.

Variable exists_outside : gmap string node → string → bool.
Variable open_outside :
  gmap string node → string → string → result unit * gmap string node.
Variable str_format : string → nat → result string.

Lemma rev_versions (n0 : node) (cs : list string) (c : string) :
  rev (n0 :: (File <$> cs ++ [c])) = File c :: rev (n0 :: (File <$> cs)).
Proof.
  rewrite fmap_app. simpl. rewrite rev_app_distr. reflexivity.
Qed.

Lemma write_all_snoc (fuel : nat) (fs : gmap string node) (name : string)
    (cs : list string) (c : string) :
  write_all exists_outside open_outside str_format fuel fs name (cs ++ [c])
  = match write_all exists_outside open_outside str_format fuel fs name cs with
    | Some (Ok _, fs') =>
        write_output exists_outside open_outside str_format fuel fs' name c
    | other => other
    end.
Proof.
  unfold write_all. rewrite foldl_app. simpl.
  destruct (foldl _ _ cs) as [[[?|?] ?]|]; reflexivity.
Qed.

Lemma versions_resolve (n0 : node) (cs : list string) (i : nat) (x : node) :
  follow n0 = Some n0 →
  rev (n0 :: (File <$> cs)) !! i = Some x → is_Some (follow x).
Proof.
  intros Hn0 Hx. apply list_elem_of_lookup_2 in Hx.
  apply list_elem_of_In, in_rev, list_elem_of_In in Hx.
  apply elem_of_cons in Hx as [->|Hx].
  - rewrite Hn0. eauto.
  - apply list_elem_of_fmap in Hx as (c & -> & _). simpl. eauto.
Qed.

Lemma write_all_versions (fs : gmap string node) (name : string) (n0 : node)
    (contents : list string) :
  ordinary name = true → brace_free name = true →
  fs !! name = Some n0 → follow n0 = Some n0 →
  (∀ i, 1 <= i → fs !! backup_name name i = None) →
  ∃ fs',
    (∀ fuel, size fs + length contents <= fuel →
       write_all exists_outside open_outside str_format fuel fs name contents
       = Some (Ok tt, fs'))
    ∧ (∀ i, version fs' name i = rev (n0 :: (File <$> contents)) !! i)
    ∧ size fs' = size fs + length contents
    ∧ (∀ other, other ≠ name → (∀ i, other ≠ backup_name name i) →
         fs' !! other = fs !! other).
Proof.
  intros Hord Hbf Hn Hn0 Hfree.
  pose proof (ordinary_inv _ Hord) as (Hsep & _).
  pose proof (ordinary_special _ Hord) as Hsp.
  pose proof (first_component_name _ Hord) as Hfc.
  assert (Hbk : ∀ i, ordinary (backup_name name i) = true)
    by (intros i; apply ordinary_backup_name, Hsep).
  induction contents as [|c cs IH] using rev_ind.
  - exists fs. split; [intros fuel _; reflexivity|]. split.
    + intros [|[|i]]; simpl; [exact Hn|apply Hfree; lia|apply Hfree; lia].
    + split; [simpl; lia|reflexivity].
  - destruct IH as (fs1 & Hrun1 & Hver & Hsize & Hother).
    assert (Hlen : length (rev (n0 :: (File <$> cs))) = S (length cs)).
    { rewrite length_rev. simpl. rewrite length_fmap. reflexivity. }
    pose proof (versions_resolve n0 cs) as Hres.
    remember (rev (n0 :: (File <$> cs))) as rvs eqn:Hrvs.
    assert (Hv0 : fs1 !! name = rvs !! 0) by exact (Hver 0).
    assert (HvS : ∀ i, fs1 !! backup_name name (S i) = rvs !! S i)
      by (intros i; exact (Hver (S i))).
    destruct (rvs !! 0) as [x0|] eqn:Hx0.
    2:{ apply lookup_ge_None in Hx0. lia. }
    assert (Hex : os_path_exists exists_outside fs1 name = true).
    { rewrite exists_name, Hv0 by exact Hord.
      apply bool_decide_eq_true. exact (Hres 0 x0 Hn0 Hx0). }
    assert (Hfree1 : fs1 !! backup_name name (S (length cs)) = None).
    { rewrite HvS. apply lookup_ge_None. lia. }
    assert (Hff : first_free exists_outside fs1 name (S (length cs))).
    { split; [lia|]. split.
      - rewrite exists_name, Hfree1 by apply Hbk. reflexivity.
      - intros i Hi. destruct i as [|i]; [lia|].
        rewrite exists_name, HvS by apply Hbk.
        destruct (rvs !! S i) as [x|] eqn:Hx.
        + apply bool_decide_eq_true. exact (Hres (S i) x Hn0 Hx).
        + apply lookup_ge_None in Hx. lia. }
    destruct (rename_existing_at exists_outside str_format fs1 name name x0
                (S (length cs)) Hex Hfc Hsp Hbf Hv0 Hff Hfree1)
      as (fs1' & Hrun & Hgone & Hto1 & Hmoved & Hrest).
    destruct (rotation_dom_size fs1 fs1' name (S (length cs)) x0)
      as [_ Hsize']; try assumption; [lia| |].
    { apply (first_free_occupied exists_outside); assumption. }
    exists (<[name := File c]> fs1'). split.
    { intros fuel Hfuel. rewrite length_app in Hfuel. simpl in Hfuel.
      rewrite write_all_snoc, (Hrun1 fuel) by lia.
      unfold write_output. rewrite (proj2 (Hrun fuel ltac:(lia))).
      rewrite write_file_new by assumption. reflexivity. }
    split.
    { intros i. rewrite rev_versions, <- Hrvs.
      destruct i as [|i].
      { apply lookup_insert_eq. }
      change (version (<[name:=File c]> fs1') name (S i))
        with (<[name:=File c]> fs1' !! backup_name name (S i)).
      change ((File c :: rvs) !! S i) with (rvs !! i).
      rewrite lookup_insert_ne by (apply not_eq_sym, backup_name_ne_base).
      destruct i as [|i].
      - rewrite Hto1. symmetry. exact Hx0.
      - destruct (decide (S i < S (length cs))) as [Hlt|Hge].
        + rewrite Hmoved by lia. apply HvS.
        + rewrite Hrest.
          * rewrite HvS. rewrite !lookup_ge_None_2 by lia. reflexivity.
          * apply backup_name_ne_base.
          * intros j Hj E. apply backup_name_inj in E. lia. }
    split.
    { rewrite map_size_insert_None by exact Hgone.
      rewrite Hsize', Hsize, length_app. simpl. lia. }
    intros other Hne Hnb.
    rewrite lookup_insert_ne by congruence.
    rewrite Hrest; [apply Hother; assumption|exact Hne|].
    intros i _. apply Hnb.
Qed.

(** Names with the same stem and suffixes none of which starts with the
    other are different, and neither is a numbered backup of the other. *)
Lemma stem_apart (base s t : string) :
  (∀ u, s ≠ t +:+ u) →
  base +:+ s ≠ base +:+ t ∧ ∀ i, base +:+ s ≠ backup_name (base +:+ t) i.
Proof.
  intros H. split.
  - intros E. apply String.app_inj in E. apply (H ""). rewrite string_app_nil_r.
    exact E.
  - intros i E. unfold backup_name in E. rewrite !string_app_assoc in E.
    apply String.app_inj in E. exact (H _ E).
Qed.

Lemma rotate_outputs_cons (fuel : nat) (fs fs1 : gmap string node)
    (p : string) (ps : list string) :
  rename_existing exists_outside str_format fuel fs p = Some (Ok tt, fs1) →
  rotate_outputs exists_outside str_format fuel fs (p :: ps)
  = rotate_outputs exists_outside str_format fuel fs1 ps.
Proof. intros H. unfold rotate_outputs. simpl. rewrite H. reflexivity. Qed.

(** Without links, a name exists exactly when the directory has an entry
    of that name. *)
Lemma exists_name_no_links (fs : gmap string node) (name : string) :
  ordinary name = true → no_links fs →
  os_path_exists exists_outside fs name = bool_decide (is_Some (fs !! name)).
Proof.
  intros Hord Hnl. rewrite exists_name by exact Hord.
  destruct (fs !! name) as [n|] eqn:E.
  - rewrite (Hnl name n E).
    rewrite !bool_decide_eq_true_2 by eauto. reflexivity.
  - symmetry. apply bool_decide_eq_false. intros [x Hx]. discriminate.
Qed.

(** One rotation in a directory without links, of a relative path that
    begins with a name without braces, whether the path exists or not. *)
Lemma rename_existing_step (fs : gmap string node) (filepath c : string)
    (rest : list string) :
  split_sep filepath = c :: rest → ordinary c = true →
  first_component filepath = c → brace_free c = true →
  no_links fs →
  ∃ fs',
    (∀ fuel, size fs < fuel →
       rename_existing exists_outside str_format fuel fs filepath
       = Some (Ok tt, fs'))
    ∧ size fs' = size fs
    ∧ os_path_exists exists_outside fs' filepath = false
    ∧ (∀ name, name ≠ c → (∀ i, name ≠ backup_name c i) →
         fs' !! name = fs !! name)
    ∧ (∀ name n, fs !! name = Some n → ∃ name', fs' !! name' = Some n)
    ∧ no_links fs'.
Proof.
  intros Hsplit Hord Hbase Hbf Hnl.
  pose proof (ordinary_inv _ Hord) as (Hsep & _).
  destruct (os_path_exists exists_outside fs filepath) eqn:Hex.
  - pose proof Hex as Hex'.
    rewrite (exists_first exists_outside fs filepath c rest Hsplit Hord) in Hex'.
    destruct (fs !! c) as [n|] eqn:Hn; [|discriminate].
    destruct (rename_existing_search exists_outside str_format fs filepath)
      as (k & Hff & _); [rewrite Hbase; exact Hbf|].
    rewrite Hbase in Hff.
    assert (Hfree : fs !! backup_name c k = None).
    { destruct Hff as (_ & Hf & _).
      rewrite exists_name_no_links in Hf
        by (apply ordinary_backup_name, Hsep || exact Hnl).
      apply bool_decide_eq_false in Hf.
      destruct (fs !! backup_name c k); [destruct Hf; eauto|reflexivity]. }
    pose proof (first_free_occupied exists_outside fs c k Hsep Hff) as Hocc.
    destruct (rename_existing_at exists_outside str_format fs filepath c n k
                Hex Hbase (ordinary_special _ Hord) Hbf Hn Hff Hfree)
      as (fs' & Hrun & Hgone & Hto1 & Hmoved & Hrest).
    exists fs'. split; [intros fuel Hfuel; apply (Hrun fuel Hfuel)|].
    split.
    { apply (rotation_dom_size fs fs' c k n); try assumption. apply Hff. }
    split.
    { rewrite (exists_first exists_outside fs' filepath c rest Hsplit Hord).
      rewrite Hgone. reflexivity. }
    split; [intros name Hb Hne; apply Hrest; auto|].
    split; [exact (rotation_keeps fs fs' c k n Hn Hfree Hto1 Hmoved Hrest)|].
    intros name m Hm.
    assert (Hfrom : ∃ name0, fs !! name0 = Some m).
    { destruct (decide (name = c)) as [->|Hb]; [congruence|].
      destruct (decide (name ∈ backup_name c <$> seq 1 k)) as [Hin|Hnin].
      - apply list_elem_of_fmap in Hin as (i & -> & Hi).
        apply elem_of_seq in Hi.
        destruct i as [|[|j]]; [lia| |].
        + exists c. congruence.
        + exists (backup_name c (S j)). rewrite <- Hmoved by lia. exact Hm.
      - exists name. rewrite <- Hrest; [exact Hm|exact Hb|].
        intros i Hi ->. apply Hnin, list_elem_of_fmap.
        exists i. split; [reflexivity|]. apply elem_of_seq. lia. }
    destruct Hfrom as [name0 Hname0]. exact (Hnl name0 m Hname0).
  - exists fs. split.
    { intros fuel _. unfold rename_existing. rewrite Hex. reflexivity. }
    split; [reflexivity|]. split; [exact Hex|].
    split; [reflexivity|]. split; [eauto|exact Hnl].
Qed.

End RotationFacts3.

(** X19: outputs written one after the other under a name without braces
    that is an entry of the working directory, not a link, and has no
    numbered backups end up newest first: the name holds the last output,
    backup 1 the one before, and so on; the backup with the highest number
    holds the entry that was there at the start.  No other entry of the
    directory is touched. *)
Theorem write_all_newest_first
    (exists_outside : gmap string node → string → bool)
    (open_outside :
       gmap string node → string → string → result unit * gmap string node)
    (str_format : string → nat → result string)
    (fs : gmap string node) (name : string)
    (n0 : node) (contents : list string) :
  ordinary name = true → brace_free name = true →
  fs !! name = Some n0 → follow n0 = Some n0 →
  (∀ i, 1 <= i → fs !! backup_name name i = None) →
  ∃ fs',
    (∀ fuel, size fs + length contents <= fuel →
       write_all exists_outside open_outside str_format fuel fs name contents
       = Some (Ok tt, fs'))
    ∧ (∀ i, version fs' name i = rev (n0 :: (File <$> contents)) !! i)
    ∧ size fs' = size fs + length contents
    ∧ (∀ other, other ≠ name → (∀ i, other ≠ backup_name name i) →
         fs' !! other = fs !! other).
Proof. apply write_all_versions. Qed.

Lemma write_all_newest_first_witness :
  ∃ fs', write_all nothing_outside no_open no_format 3 report_dir "report.md"
           ["v1"; "v2"] = Some (Ok tt, fs')
         ∧ fs' !! "report.md" = Some (File "v2")
         ∧ fs' !! "report.md_1" = Some (File "v1")
         ∧ fs' !! "report.md_2" = Some (File "v0").
Proof.
  destruct (write_all_newest_first nothing_outside no_open no_format
              report_dir "report.md" (File "v0")
              ["v1"; "v2"] eq_refl eq_refl eq_refl eq_refl)
    as (fs' & Hrun & Hver & _).
  { intros i _. apply lookup_singleton_ne, not_eq_sym, backup_name_ne_base. }
  exists fs'. split; [apply Hrun; vm_compute; lia|].
  split; [exact (Hver 0)|]. split; [exact (Hver 1)|exact (Hver 2)].
Defined.

(** X20: with the default output names of [optimise] the three rotations
    do not interfere.  For every base name without separator and braces and
    every working directory without links they all succeed, none of the
    three paths exists afterwards, the directory has as many entries as
    before and every entry it held is found again. *)
Theorem rotate_default_outputs
    (exists_outside : gmap string node → string → bool)
    (str_format : string → nat → result string)
    (fs : gmap string node) (base : string) :
  sep_free base = true → brace_free base = true → no_links fs →
  ∃ fs',
    (∀ fuel, size fs < fuel →
       rotate_outputs exists_outside str_format fuel fs
         (output_paths base None None None)
       = Some (Ok tt, fs'))
    ∧ (∀ p, p ∈ output_paths base None None None →
            os_path_exists exists_outside fs' p = false)
    ∧ size fs' = size fs
    ∧ (∀ name n, fs !! name = Some n → ∃ name', fs' !! name' = Some n).
Proof.
  intros Hsep Hbf Hnl.
  assert (Hord : ∀ s, sep_free s = true → 3 <= String.length s →
                      ordinary (base +:+ s) = true).
  { intros s Hs Hl. apply ordinary_long.
    - rewrite sep_free_app, Hsep, Hs. reflexivity.
    - rewrite string_length_app. lia. }
  assert (Hbr : ∀ s, brace_free s = true → brace_free (base +:+ s) = true).
  { intros s Hs. rewrite brace_free_app, Hbf, Hs. reflexivity. }
  assert (Hmd : ordinary (base +:+ ".md") = true)
    by (apply Hord; [reflexivity|simpl; lia]).
  assert (Hmo : ordinary (base +:+ ".molden") = true)
    by (apply Hord; [reflexivity|simpl; lia]).
  assert (Hel : ordinary (base +:+ "_el_calcs") = true)
    by (apply Hord; [reflexivity|simpl; lia]).
  assert (Hinp : ordinary (base +:+ ".inp") = true)
    by (apply Hord; [reflexivity|simpl; lia]).
  destruct (first_component_join _ _ Hel Hinp) as [Hsplit3 Hfc3].
  unfold output_paths. simpl.
  unfold default_md_out, default_molden_out, default_el_calc_input.
  change ((base +:+ "_el_calcs") +:+ "/" +:+ (base +:+ ".inp"))
    with ((base +:+ "_el_calcs") +:+ String "/" (base +:+ ".inp")).
  destruct (rename_existing_step exists_outside str_format fs
              (base +:+ ".md") (base +:+ ".md") [])
    as (fs1 & Hrun1 & Hsize1 & Hgone1 & Hrest1 & Hkeep1 & Hnl1);
    [apply split_sep_sep_free, (ordinary_inv _ Hmd)|exact Hmd
    |apply first_component_name, Hmd|apply Hbr; reflexivity|exact Hnl|].
  destruct (rename_existing_step exists_outside str_format fs1
              (base +:+ ".molden") (base +:+ ".molden") [])
    as (fs2 & Hrun2 & Hsize2 & Hgone2 & Hrest2 & Hkeep2 & Hnl2);
    [apply split_sep_sep_free, (ordinary_inv _ Hmo)|exact Hmo
    |apply first_component_name, Hmo|apply Hbr; reflexivity|exact Hnl1|].
  destruct (rename_existing_step exists_outside str_format fs2
              ((base +:+ "_el_calcs") +:+ String "/" (base +:+ ".inp"))
              (base +:+ "_el_calcs") [base +:+ ".inp"])
    as (fs3 & Hrun3 & Hsize3 & Hgone3 & Hrest3 & Hkeep3 & Hnl3);
    [exact Hsplit3|exact Hel|exact Hfc3|apply Hbr; reflexivity|exact Hnl2|].
  assert (Hmd_mo := stem_apart base ".md" ".molden"
                      ltac:(intros u E; discriminate E)).
  assert (Hmd_el := stem_apart base ".md" "_el_calcs"
                      ltac:(intros u E; discriminate E)).
  assert (Hmo_el := stem_apart base ".molden" "_el_calcs"
                      ltac:(intros u E; discriminate E)).
  assert (Hnone : ∀ (m : gmap string node) name,
            ordinary name = true → no_links m →
            os_path_exists exists_outside m name = false → m !! name = None).
  { intros m name Ho Hm H.
    rewrite (exists_name_no_links exists_outside) in H by assumption.
    apply bool_decide_eq_false in H.
    destruct (m !! name); [destruct H; eauto|reflexivity]. }
  exists fs3. split.
  { intros fuel Hfuel.
    rewrite (rotate_outputs_cons _ _ fuel fs fs1) by (apply Hrun1; lia).
    rewrite (rotate_outputs_cons _ _ fuel fs1 fs2) by (apply Hrun2; lia).
    rewrite (rotate_outputs_cons _ _ fuel fs2 fs3) by (apply Hrun3; lia).
    reflexivity. }
  split.
  { intros p Hp.
    apply elem_of_cons in Hp as [->|Hp].
    { rewrite (exists_name exists_outside) by exact Hmd.
      rewrite Hrest3, Hrest2 by (apply Hmd_mo || apply Hmd_el).
      rewrite (Hnone fs1 _ Hmd Hnl1 Hgone1). reflexivity. }
    apply elem_of_cons in Hp as [->|Hp].
    { rewrite (exists_name exists_outside) by exact Hmo.
      rewrite Hrest3 by apply Hmo_el.
      rewrite (Hnone fs2 _ Hmo Hnl2 Hgone2). reflexivity. }
    apply list_elem_of_singleton in Hp as ->. exact Hgone3. }
  split; [lia|].
  intros name n Hn.
  destruct (Hkeep1 name n Hn) as [n1 H1].
  destruct (Hkeep2 n1 n H1) as [n2 H2].
  exact (Hkeep3 n2 n H2).
Qed.

Lemma report_dir_no_links : no_links report_dir.
Proof.
  intros name n H. unfold report_dir in H.
  apply lookup_singleton_Some in H as [_ <-]. reflexivity.
Qed.

Lemma rotate_default_outputs_witness :
  ∃ fs', rotate_outputs nothing_outside no_format 2 report_dir
           (output_paths "report" None None None)
         = Some (Ok tt, fs')
         ∧ os_path_exists nothing_outside fs' "report.md" = false.
Proof.
  destruct (rotate_default_outputs nothing_outside no_format report_dir
              "report" eq_refl eq_refl report_dir_no_links)
    as (fs' & Hrun & Hgone & _).
  exists fs'. split; [apply Hrun; vm_compute; lia|].
  apply Hgone. left.
Defined.

(** ** Progress report *)

Lemma length_spaces (n : nat) : String.length (spaces n) = n.
Proof. induction n as [|n IH]; simpl; [reflexivity|]. rewrite IH. reflexivity. Qed.

Lemma length_truncate (prec : nat) (s : string) :
  String.length (truncate prec s) = min prec (String.length s).
Proof.
  unfold truncate. revert s. induction prec as [|p IH]; intros s.
  - destruct s; reflexivity.
  - destruct s as [|c s]; simpl; [reflexivity|]. rewrite IH. reflexivity.
Qed.

Lemma length_fmt_right (w : nat) (s : string) :
  String.length (fmt_right w w s) = w.
Proof.
  unfold fmt_right. rewrite string_length_app, length_spaces, length_truncate.
  lia.
Qed.

Lemma length_fmt_center (w : nat) (s : string) :
  String.length (fmt_center w w s) = w.
Proof.
  unfold fmt_center.
  rewrite !string_length_app, !length_spaces, length_truncate.
  assert ((w - min w (String.length s)) `div` 2 <= w - min w (String.length s))
    by (apply Nat.Div0.div_le_upper_bound; lia).
  lia.
Qed.

Lemma truncate_short (prec : nat) (s : string) :
  String.length s <= prec → truncate prec s = s.
Proof.
  unfold truncate. revert s. induction prec as [|p IH]; intros s Hs.
  - destruct s; [reflexivity|simpl in Hs; lia].
  - destruct s as [|c s]; simpl; [reflexivity|].
    rewrite IH by (simpl in Hs; lia). reflexivity.
Qed.

(** X21: every row that [get_row] formats is 75 characters wide, whatever
    the four strings are: each field is cut to the width of its column and
    padded to it.  The table header is two such rows. *)
Theorem get_row_width (c1 c2 c3 c4 : string) :
  String.length (get_row c1 c2 c3 c4) = 75
  ∧ String.length _get_table_header = 75 + 1 + 75.
Proof.
  assert (H : ∀ a b c d, String.length (get_row a b c d) = 75).
  { intros a b c d. unfold get_row.
    rewrite !string_length_app, length_fmt_right, !length_fmt_center.
    reflexivity. }
  split; [apply H|].
  unfold _get_table_header. rewrite !string_length_app, !H. reflexivity.
Qed.

(** ** Table rows *)

Lemma table_row_values_first (d : gmap string float) (g : pyval) :
  table_row_values [d] g
  = (energy <- dict_get d "energy" ;;
     gmax <- abs_max g ;;
     Ok (1, energy, 0%float, gmax))%py.
Proof.
  unfold table_row_values. simpl.
  destruct (dict_get d "energy"); reflexivity.
Qed.

Lemma table_row_values_later (pre : list (gmap string float))
    (d0 d1 : gmap string float) (g : pyval) :
  table_row_values (pre ++ [d0; d1]) g
  = (e1 <- dict_get d1 "energy" ;;
     e0 <- dict_get d0 "energy" ;;
     gmax <- abs_max g ;;
     Ok (length pre + 2, e1, PrimFloat.sub e1 e0, gmax))%py.
Proof.
  unfold table_row_values.
  rewrite index_neg_snoc1, index_neg_snoc2, length_app. simpl.
  rewrite decide_False by lia.
  destruct (dict_get d1 "energy"); [|reflexivity]. simpl.
  destruct (dict_get d0 "energy"); reflexivity.
Qed.

(** X22: the numbers of a table row.  Without any calculation there is no
    row but an [IndexError]; a dictionary without the key ['energy'] is a
    [KeyError].  The first row shows the delta 0, whatever the energy is;
    every later row shows the last energy less the one before, the number of
    calculations, and the largest absolute gradient component. *)
Theorem table_row_numbers (format_f : nat → nat → float → string) (g : pyval) :
  (∃ msg, _get_table_row format_f [] g = Raise (IndexError msg))
  ∧ (∀ pre d, d !! "energy" = None →
       _get_table_row format_f (pre ++ [d]) g = Raise (KeyError "energy"))
  ∧ (∀ d e gmax, d !! "energy" = Some e → abs_max g = Ok gmax →
       _get_table_row format_f [d] g = Ok (get_str format_f 1 e 0%float gmax))
  ∧ (∀ pre d0 d1 e0 e1 gmax,
       d0 !! "energy" = Some e0 → d1 !! "energy" = Some e1 →
       abs_max g = Ok gmax →
       _get_table_row format_f (pre ++ [d0; d1]) g
       = Ok (get_str format_f (length pre + 2) e1 (PrimFloat.sub e1 e0) gmax)).
Proof.
  split; [eexists; reflexivity|]. split; [|split].
  - intros pre d Hd. unfold _get_table_row, table_row_values, index_neg.
    rewrite length_app. simpl.
    rewrite decide_True by lia.
    replace (length pre + 1 - 1) with (length pre) by lia.
    rewrite lookup_app_r, Nat.sub_diag by lia. simpl.
    unfold dict_get. rewrite Hd. reflexivity.
  - intros d e gmax Hd Hg. unfold _get_table_row.
    rewrite table_row_values_first. unfold dict_get. rewrite Hd. simpl.
    rewrite Hg. reflexivity.
  - intros pre d0 d1 e0 e1 gmax H0 H1 Hg. unfold _get_table_row.
    rewrite table_row_values_later. unfold dict_get. rewrite H1, H0. simpl.
    rewrite Hg. reflexivity.
Qed.

Lemma table_row_numbers_witness :
  _get_table_row (fun _ _ _ => "x") [ {[ "energy" := (-1)%float ]} ]
    (PyFloatArray [0.5%float; (-2)%float])
  = Ok (get_str (fun _ _ _ => "x") 1 (-1)%float 0%float 2%float).
Proof.
  apply (proj1 (proj2 (proj2 (table_row_numbers (fun _ _ _ => "x")
                                (PyFloatArray [0.5%float; (-2)%float]))))
           {[ "energy" := (-1)%float ]}); reflexivity.
Defined.


